(** * candelivers: routing core (distance matrix, constraints, optimizer)

    A shallow embedding of

      - services/routing/src/distance.py     (class DistanceMatrix)
      - services/routing/src/constraints.py  (capacity and driver-hours
        validators)
      - services/routing/src/optimizer.py    (class RouteOptimizer)

    Numbers.  constraints.py decides by comparing sums and quotients of
    floats, and what it answers depends on how they are rounded: its floats
    are binary64 values (the primitive type [float]: IEEE 754, rounding to
    nearest, ties to even, as in CPython) and its [int]s are integers
    ([Z]).  distance.py and optimizer.py go through [math.sin], [math.cos]
    and [math.asin] of the C library, whose results IEEE 754 does not fix:
    there the floats are idealised as real numbers ([R]), with the
    functions of the real-number library, and [float("inf")] is a separate
    value of [ExtFloat].  In particular the capacity tests and the totals
    of optimizer.py are the exact ones here, where the code has rounded
    ones.  What is proved of these two files is proved of the idealisation;
    the theorems on indices, stops, routes, the cache and what is left
    unchanged use no property of the arithmetic.

    Failure.  A subscript out of range raises [IndexError] in Python and a
    [while] loop may fail to terminate; both are [None] here (loops with a
    [while] carry a fuel argument).  Theorems that say the code returns
    something prove that the result is [Some _]. *)

From Stdlib Require Import Floats ZArith.
From Stdlib Require Import Reals Lra Lia List String.
From stdpp Require Import base option list gmap strings.

Open Scope R_scope.

(** ** Decidable comparisons on idealised floats *)

#[global] Instance R_eq_dec : EqDecision R := Req_dec_T.
#[global] Instance Rlt_decision : RelDecision Rlt := Rlt_dec.
#[global] Instance Rle_decision : RelDecision Rle := Rle_dec.
#[global] Instance Rgt_decision : RelDecision Rgt := Rgt_dec.
#[global] Instance Rge_decision : RelDecision Rge := Rge_dec.
#[global] Instance string_eq_decision : EqDecision string := string_dec.

(** A float that may be [float("inf")]. *)
Inductive ExtFloat : Type :=
  | Finite (r : R)
  | PosInf.

(** [d < best] for a finite [d]: every finite float is below infinity. *)
Definition lt_ext (d : R) (best : ExtFloat) : bool :=
  match best with
  | PosInf => true
  | Finite b => bool_decide (d < b)
  end.

(** ** Python loops and containers *)

(** [for x in l: s = f(s, x)], where the body may raise. *)
Fixpoint for_each {A S : Type} (f : S -> A -> option S) (s : S) (l : list A)
  : option S :=
  match l with
  | [] => Some s
  | x :: l' => match f s x with
               | Some s' => for_each f s' l'
               | None => None
               end
  end.

(** [range(a, b)]. *)
Definition range (a b : nat) : list nat := seq a (b - a).

(** A [dict], as an association list with at most one entry per key. *)
Fixpoint dict_get {K V : Type} `{EqDecision K} (k : K) (d : list (K * V))
  : option V :=
  match d with
  | [] => None
  | (k', v) :: d' => if decide (k = k') then Some v else dict_get k d'
  end.

Definition dict_set {K V : Type} `{EqDecision K} (k : K) (v : V)
  (d : list (K * V)) : list (K * V) :=
  (k, v) :: filter (fun kv => kv.1 <> k) d.

(** ** distance.py *)

(** A location is a [(lat, lng)] tuple. *)
Abbreviation Loc := (R * R)%type (only parsing).

(** A two-dimensional array, row-major. *)
Abbreviation Matrix := (list (list R)) (only parsing).

(** [np.zeros((n, n))]. *)
Definition zeros (n : nat) : Matrix := replicate n (replicate n 0).

(** [matrix[i][j]]; [None] is [IndexError]. *)
Definition mget (m : Matrix) (i j : nat) : option R :=
  row ← m !! i; row !! j.

(** [matrix[i][j] = v]; [None] is [IndexError]. *)
Definition mset (m : Matrix) (i j : nat) (v : R) : option Matrix :=
  row ← m !! i;
  if decide (j < length row)%nat then Some (<[i := <[j := v]> row]> m)
  else None.

Module DistanceMatrix.

Definition EARTH_RADIUS_KM : R := 6371.0.

(** The object state: [self.use_cache] and [self._cache]. *)
Record t : Type := mk {
  use_cache : bool;
  _cache : list (list Loc * Matrix)
}.

(** [__init__]. *)
Definition init (use_cache : bool) : t :=
  {| use_cache := use_cache; _cache := [] |}.

(** [math.radians]. *)
Definition radians (deg : R) : R := deg * (PI / 180).

Definition haversine (lat1 lng1 lat2 lng2 : R) : R :=
  let lat1_rad := radians lat1 in
  let lng1_rad := radians lng1 in
  let lat2_rad := radians lat2 in
  let lng2_rad := radians lng2 in
  let dlat := lat2_rad - lat1_rad in
  let dlng := lng2_rad - lng1_rad in
  let a := sin (dlat / 2) ^ 2
           + cos lat1_rad * cos lat2_rad * sin (dlng / 2) ^ 2 in
  let c := 2 * asin (sqrt a) in
  EARTH_RADIUS_KM * c.

(** Body of the inner loop, [for j in range(i + 1, n)]. *)
Definition inner_body (locations : list Loc) (i : nat) (matrix : Matrix)
  (j : nat) : option Matrix :=
  '(lat1, lng1) ← locations !! i;
  '(lat2, lng2) ← locations !! j;
  let distance := haversine lat1 lng1 lat2 lng2 in
  matrix ← mset matrix i j distance;
  mset matrix j i distance.

(** Body of the outer loop, [for i in range(n)]. *)
Definition outer_body (locations : list Loc) (n : nat) (matrix : Matrix)
  (i : nat) : option Matrix :=
  for_each (inner_body locations i) matrix (range (i + 1) n).

(** The matrix built on a cache miss. *)
Definition build_matrix (locations : list Loc) : option Matrix :=
  let n := length locations in
  for_each (outer_body locations n) (zeros n) (range 0 n).

Definition compute_distance_matrix (self : t) (locations : list Loc)
  : option (Matrix * t) :=
  let cache_key := locations in
  match (if use_cache self then dict_get cache_key (_cache self)
         else None) with
  | Some cached => Some (cached, self)
  | None =>
      matrix ← build_matrix locations;
      if use_cache self
      then Some (matrix,
                 {| use_cache := use_cache self;
                    _cache := dict_set cache_key matrix (_cache self) |})
      else Some (matrix, self)
  end.

Definition distance_between (loc1 loc2 : Loc) : R :=
  haversine loc1.1 loc1.2 loc2.1 loc2.2.

(** [clear_cache]. *)
Definition clear_cache (self : t) : t :=
  {| use_cache := use_cache self; _cache := [] |}.

(** The [for i, (lat, lng) in enumerate(locations)] loop of
    [bounding_box_query], from position [i]. *)
Fixpoint bounding_box_loop (center : Loc) (lat_delta lng_delta : R)
  (i : nat) (locations : list Loc) (result : list nat) : list nat :=
  match locations with
  | [] => result
  | (lat, lng) :: locations' =>
      bounding_box_loop center lat_delta lng_delta (S i) locations'
        (if bool_decide (Rabs (lat - center.1) <= lat_delta)
            && bool_decide (Rabs (lng - center.2) <= lng_delta)
         then result ++ [i]
         else result)
  end.

(** [None] is the [ZeroDivisionError] of the division by
    [111.0 * math.cos(...)].  With exact cosines the divisor is zero for a
    centre at a pole; the theorems on this function are for centres
    strictly between the poles. *)
Definition bounding_box_query (locations : list Loc) (center : Loc)
  (radius_km : R) : option (list nat) :=
  let lat_delta := radius_km / 111.0 in
  let divisor := 111.0 * cos (radians center.1) in
  if decide (divisor = 0) then None
  else
    let lng_delta := radius_km / divisor in
    Some (bounding_box_loop center lat_delta lng_delta 0 locations []).

End DistanceMatrix.

(** ** Binary64 floats and Python integers *)

(** [x > y] on floats; false when one of them is a NaN. *)
Definition float_gt (x y : float) : bool := (y <? x)%float.

(** The conversion of an [int] that an arithmetic operation with a float
    makes: the nearest binary64 value, ties to even; [None] is
    [OverflowError]. *)
Definition float_of_int (n : Z) : option float :=
  let x := SF2Prim (binary_normalize prec emax n 0 false) in
  if is_infinity x then None else Some x.

(** [n < x] for an [int] and a float, which Python compares exactly. *)
Definition int_lt_float (n : Z) (x : float) : bool :=
  match Prim2SF x with
  | S754_nan => false
  | S754_infinity s => negb s
  | S754_zero _ => (n <? 0)%Z
  | S754_finite s m e =>
      let v := if s then Z.neg m else Z.pos m in
      if (0 <=? e)%Z then (n <? v * 2 ^ e)%Z else (n * 2 ^ (- e) <? v)%Z
  end.

(** ** constraints.py *)

(** [TimeWindow]: two instants, as timestamps. *)
Module TimeWindow.

Record t : Type := mk {
  earliest : Z;
  latest : Z
}.

Definition contains (self : t) (time : Z) : bool :=
  bool_decide (earliest self <= time)%Z && bool_decide (time <= latest self)%Z.

Definition is_feasible (self : t) (arrival_time : Z) : bool :=
  bool_decide (arrival_time <= latest self)%Z.

End TimeWindow.

(** A naive [datetime] is a number of seconds counted from some midnight;
    these are its [hour] and [minute] attributes. *)
Definition datetime_hour (instant : Z) : Z := ((instant / 3600) mod 24)%Z.

Definition datetime_minute (instant : Z) : Z := ((instant / 60) mod 60)%Z.

Module VehicleCapacityConstraint.

Local Open Scope float_scope.

Record t : Type := mk {
  max_weight_kg : float;
  max_volume_m3 : float
}.

(** The [for weight, volume in route_loads] loop with its two running
    totals; [false] is the early [return False]. *)
Fixpoint validate_loop (self : t) (total_weight total_volume : float)
  (route_loads : list (float * float)) : bool :=
  match route_loads with
  | [] => true
  | (weight, volume) :: rest =>
      let total_weight := total_weight + weight in
      let total_volume := total_volume + volume in
      if float_gt total_weight (max_weight_kg self) then false
      else if float_gt total_volume (max_volume_m3 self) then false
      else validate_loop self total_weight total_volume rest
  end.

Definition validate (self : t) (route_loads : list (float * float)) : bool :=
  validate_loop self 0.0 0.0 route_loads.

End VehicleCapacityConstraint.

Module DriverHoursConstraint.

Local Open Scope float_scope.

Record t : Type := mk {
  max_shift_hours : float;
  mandatory_break_hours : float;
  break_after_hours : float
}.

(** [__init__] with its default arguments. *)
Definition default : t :=
  {| max_shift_hours := 10.0;
     mandatory_break_hours := 0.5;
     break_after_hours := 5.0 |}.

(** The two arguments are [int]s, as annotated.  Each division by [60.0]
    converts its [int]; the product with [60] is a product of floats; the
    last comparison is between the [int] and a float. *)
Definition validate (self : t) (total_time_minutes driving_time_minutes : Z)
  : option bool :=
  total ← float_of_int total_time_minutes;
  let total_hours := total / 60.0 in
  driving ← float_of_int driving_time_minutes;
  let driving_hours := driving / 60.0 in
  if float_gt total_hours (max_shift_hours self) then Some false
  else if float_gt driving_hours (break_after_hours self) then
    let min_total_with_break :=
      (driving_hours + mandatory_break_hours self) * 60 in
    if int_lt_float total_time_minutes min_total_with_break then Some false
    else Some true
  else Some true.

End DriverHoursConstraint.

Module TimeWindowConstraint.

Record t : Type := mk {
  service_time_minutes : Z
}.

(** [__init__] with its default argument. *)
Definition default : t := {| service_time_minutes := 30 |}.

(** The loop over [zip(time_windows, arrival_times)]: it ends with the
    shorter list; [false] is the early [return False]. *)
Fixpoint validate_loop (start_time : Z) (time_windows : list TimeWindow.t)
  (arrival_times : list Z) : bool :=
  match time_windows, arrival_times with
  | tw :: time_windows', arrival_min :: arrival_times' =>
      let arrival_time := (start_time + arrival_min)%Z in
      let earliest_min :=
        (datetime_hour (TimeWindow.earliest tw) * 60
         + datetime_minute (TimeWindow.earliest tw))%Z in
      let latest_min :=
        (datetime_hour (TimeWindow.latest tw) * 60
         + datetime_minute (TimeWindow.latest tw))%Z in
      let arrival_min_of_day := (arrival_time mod (24 * 60))%Z in
      if bool_decide (arrival_min_of_day > latest_min)%Z
         || bool_decide (arrival_min_of_day < earliest_min)%Z
      then false
      else validate_loop start_time time_windows' arrival_times'
  | _, _ => true
  end.

Definition validate (self : t) (time_windows : list TimeWindow.t)
  (arrival_times : list Z) (start_time : Z) : bool :=
  validate_loop start_time time_windows arrival_times.

End TimeWindowConstraint.

Module ZoneRestrictionConstraint.

Record t : Type := mk {
  excluded_zones : gset string
}.

Fixpoint validate (self : t) (zones : list string) : bool :=
  match zones with
  | [] => true
  | zone :: zones' =>
      if bool_decide (zone ∈ excluded_zones self) then false
      else validate self zones'
  end.

End ZoneRestrictionConstraint.

Module ConstraintChecker.

Definition check_time_windows (time_windows : list TimeWindow.t)
  (arrival_times : list Z) (start_time : Z) : bool :=
  TimeWindowConstraint.validate TimeWindowConstraint.default time_windows
    arrival_times start_time.

Definition check_zones (zones : list string) (excluded_zones : gset string)
  : bool :=
  ZoneRestrictionConstraint.validate
    (ZoneRestrictionConstraint.mk excluded_zones) zones.

Definition check_capacity (max_weight_kg max_volume_m3 : float)
  (route_loads : list (float * float)) : bool :=
  VehicleCapacityConstraint.validate
    (VehicleCapacityConstraint.mk max_weight_kg max_volume_m3) route_loads.

Definition check_driver_hours (total_time_minutes driving_time_minutes : Z)
  : option bool :=
  DriverHoursConstraint.validate DriverHoursConstraint.default
    total_time_minutes driving_time_minutes.

End ConstraintChecker.

(** ** optimizer.py: the dataclasses *)

Module Order.
Record t : Type := mk {
  id : string;
  pickup_location : Loc;
  delivery_location : Loc;
  time_window : TimeWindow.t;
  weight_kg : R;
  volume_m3 : R
}.
End Order.

Module Vehicle.
Record t : Type := mk {
  id : string;
  max_weight_kg : R;
  max_volume_m3 : R;
  start_location : Loc;
  end_location : option Loc
}.
End Vehicle.

Module Route.
Record t : Type := mk {
  vehicle_id : string;
  stops : list nat;
  total_distance : R;
  total_time_minutes : R;
  weight_used : R;
  volume_used : R
}.

(** [route.stops = new_stops]. *)
Definition set_stops (route : t) (new_stops : list nat) : t :=
  {| vehicle_id := vehicle_id route;
     stops := new_stops;
     total_distance := total_distance route;
     total_time_minutes := total_time_minutes route;
     weight_used := weight_used route;
     volume_used := volume_used route |}.
End Route.

(** ** Sets of order indices

    [unassigned] is a Python [set] of small non-negative integers built by
    [set(range(n))] and only ever shrunk; CPython iterates such a set in
    increasing order, so it is a list kept in that order. *)

(** [s.remove(x)]; [None] is [KeyError]. *)
Fixpoint set_remove (x : nat) (s : list nat) : option (list nat) :=
  match s with
  | [] => None
  | y :: s' =>
      if decide (x = y) then Some s'
      else s'' ← set_remove x s'; Some (y :: s'')
  end.

(** [l[a:b]] for non-negative [a], [b]. *)
Definition slice {A : Type} (a b : nat) (l : list A) : list A :=
  drop a (take b l).

(** ** optimizer.py: class RouteOptimizer *)

Module RouteOptimizer.

(** [self.distance_matrix] and [self.average_speed_kmh];
    [self.constraint_checker] is created and never used. *)
Record t : Type := mk {
  distance_matrix : DistanceMatrix.t;
  average_speed_kmh : R
}.

(** [__init__]. *)
Definition init (use_distance_cache : bool) : t :=
  {| distance_matrix := DistanceMatrix.init use_distance_cache;
     average_speed_kmh := 40.0 |}.

(** [if x not in locations: locations.append(x)]. *)
Definition add_location (locations : list Loc) (x : Loc) : list Loc :=
  if decide (x ∈ locations) then locations else locations ++ [x].

Definition _extract_locations (orders : list Order.t)
  (vehicles : list Vehicle.t) : list Loc :=
  let locations := [] in
  let locations :=
    foldl (fun locations vehicle =>
             add_location locations (Vehicle.start_location vehicle))
          locations vehicles in
  foldl (fun locations order =>
           add_location
             (add_location locations (Order.pickup_location order))
             (Order.delivery_location order))
        locations orders.

(** *** Greedy construction *)

(** Body of [for order_idx in unassigned], on the pair
    [(best_order_idx, best_distance)]. *)
Definition best_body (orders : list Order.t) (vehicle : Vehicle.t)
  (current_weight current_volume : R) (current_location : Loc)
  (best : option nat * ExtFloat) (order_idx : nat)
  : option (option nat * ExtFloat) :=
  order ← orders !! order_idx;
  let new_weight := current_weight + Order.weight_kg order in
  let new_volume := current_volume + Order.volume_m3 order in
  if bool_decide (new_weight > Vehicle.max_weight_kg vehicle)
     || bool_decide (new_volume > Vehicle.max_volume_m3 vehicle)
  then Some best
  else
    let distance :=
      DistanceMatrix.distance_between current_location
        (Order.pickup_location order) in
    if lt_ext distance best.2 then Some (Some order_idx, Finite distance)
    else Some best.

(** Local variables of the [while unassigned] loop. *)
Record assign_state : Type := mk_assign {
  route_orders : list nat;
  current_weight : R;
  current_volume : R;
  current_location : Loc;
  unassigned : list nat
}.

(** [while unassigned: ...] for one vehicle. *)
Fixpoint assign_loop (fuel : nat) (orders : list Order.t)
  (vehicle : Vehicle.t) (st : assign_state) : option assign_state :=
  match fuel with
  | O => None
  | S fuel' =>
      match unassigned st with
      | [] => Some st
      | _ :: _ =>
          best ← for_each
                   (best_body orders vehicle (current_weight st)
                      (current_volume st) (current_location st))
                   (None, PosInf) (unassigned st);
          match best.1 with
          | None => Some st
          | Some best_order_idx =>
              order ← orders !! best_order_idx;
              unassigned' ← set_remove best_order_idx (unassigned st);
              assign_loop fuel' orders vehicle
                {| route_orders := route_orders st ++ [best_order_idx];
                   current_weight :=
                     current_weight st + Order.weight_kg order;
                   current_volume :=
                     current_volume st + Order.volume_m3 order;
                   current_location := Order.delivery_location order;
                   unassigned := unassigned' |}
          end
      end
  end.

(** Running totals of [_calculate_route_metrics]. *)
Record metrics_state : Type := mk_metrics {
  m_total_distance : R;
  m_total_time : R;
  m_total_weight : R;
  m_total_volume : R;
  m_current_location : Loc;
  m_current_time : R
}.

Definition metrics_body (self : t) (orders : list Order.t)
  (st : metrics_state) (order_idx : nat) : option metrics_state :=
  order ← orders !! order_idx;
  let distance_to_pickup :=
    DistanceMatrix.distance_between (m_current_location st)
      (Order.pickup_location order) in
  let total_distance := m_total_distance st + distance_to_pickup in
  let travel_time := (distance_to_pickup / average_speed_kmh self) * 60 in
  let total_time := m_total_time st + travel_time in
  let current_time := m_current_time st + travel_time in
  let service_time := 15 in
  let total_time := total_time + service_time in
  let current_time := current_time + service_time in
  let distance_to_delivery :=
    DistanceMatrix.distance_between (Order.pickup_location order)
      (Order.delivery_location order) in
  let total_distance := total_distance + distance_to_delivery in
  let travel_time := (distance_to_delivery / average_speed_kmh self) * 60 in
  let total_time := total_time + travel_time in
  let current_time := current_time + travel_time in
  let service_time := 30 in
  let total_time := total_time + service_time in
  let current_time := current_time + service_time in
  Some {| m_total_distance := total_distance;
          m_total_time := total_time;
          m_total_weight := m_total_weight st + Order.weight_kg order;
          m_total_volume := m_total_volume st + Order.volume_m3 order;
          m_current_location := Order.delivery_location order;
          m_current_time := current_time |}.

Definition _calculate_route_metrics (self : t) (order_indices : list nat)
  (orders : list Order.t) (vehicle : Vehicle.t) (distance_matrix : Matrix)
  : option Route.t :=
  st ← for_each (metrics_body self orders)
         {| m_total_distance := 0.0; m_total_time := 0.0;
            m_total_weight := 0.0; m_total_volume := 0.0;
            m_current_location := Vehicle.start_location vehicle;
            m_current_time := 0.0 |}
         order_indices;
  let '(total_distance, total_time) :=
    match Vehicle.end_location vehicle with
    | Some end_location =>
        let distance_to_end :=
          DistanceMatrix.distance_between (m_current_location st)
            end_location in
        let travel_time := (distance_to_end / average_speed_kmh self) * 60 in
        (m_total_distance st + distance_to_end, m_total_time st + travel_time)
    | None => (m_total_distance st, m_total_time st)
    end in
  Some {| Route.vehicle_id := Vehicle.id vehicle;
          Route.stops := order_indices;
          Route.total_distance := total_distance;
          Route.total_time_minutes := total_time;
          Route.weight_used := m_total_weight st;
          Route.volume_used := m_total_volume st |}.

(** [for vehicle in vehicles: ...], on [(routes, unassigned)]. *)
Fixpoint vehicles_loop (fuel : nat) (self : t) (orders : list Order.t)
  (distance_matrix : Matrix) (vehicles : list Vehicle.t)
  (routes : list Route.t) (unassigned : list nat)
  : option (list Route.t * list nat) :=
  match vehicles with
  | [] => Some (routes, unassigned)
  | vehicle :: vehicles' =>
      match unassigned with
      | [] => Some (routes, unassigned)
      | _ :: _ =>
          st ← assign_loop fuel orders vehicle
                 {| route_orders := [];
                    current_weight := 0.0;
                    current_volume := 0.0;
                    current_location := Vehicle.start_location vehicle;
                    unassigned := unassigned |};
          routes' ←
            match route_orders st with
            | [] => Some routes
            | _ :: _ =>
                route ← _calculate_route_metrics self (route_orders st)
                          orders vehicle distance_matrix;
                Some (routes ++ [route])
            end;
          vehicles_loop fuel self orders distance_matrix vehicles'
            routes' (RouteOptimizer.unassigned st)
      end
  end.

(** [for i, vehicle in enumerate(vehicles)] of the salvage pass, from
    position [i]; the first route that passes the test is updated in
    place and the loop is left. *)
Fixpoint salvage_scan (order_idx : nat) (order : Order.t) (i : nat)
  (vehicles : list Vehicle.t) (routes : list Route.t)
  : option (list Route.t) :=
  match vehicles with
  | [] => Some routes
  | vehicle :: vehicles' =>
      if decide (i < length routes)%nat then
        route ← routes !! i;
        if bool_decide (Route.weight_used route + Order.weight_kg order
                        <= Vehicle.max_weight_kg vehicle)
           && bool_decide (Route.volume_used route + Order.volume_m3 order
                           <= Vehicle.max_volume_m3 vehicle)
        then
          Some (<[i := {| Route.vehicle_id := Route.vehicle_id route;
                          Route.stops := Route.stops route ++ [order_idx];
                          Route.total_distance := Route.total_distance route;
                          Route.total_time_minutes :=
                            Route.total_time_minutes route;
                          Route.weight_used :=
                            Route.weight_used route + Order.weight_kg order;
                          Route.volume_used :=
                            Route.volume_used route + Order.volume_m3 order
                       |}]> routes)
        else salvage_scan order_idx order (S i) vehicles' routes
      else salvage_scan order_idx order (S i) vehicles' routes
  end.

Definition salvage_body (orders : list Order.t) (vehicles : list Vehicle.t)
  (routes : list Route.t) (order_idx : nat) : option (list Route.t) :=
  order ← orders !! order_idx;
  salvage_scan order_idx order 0 vehicles routes.

Definition _nearest_neighbor_initial_solution (fuel : nat) (self : t)
  (orders : list Order.t) (vehicles : list Vehicle.t)
  (distance_matrix : Matrix) : option (list Route.t) :=
  let routes := [] in
  let unassigned := range 0 (length orders) in
  '(routes, unassigned) ←
    vehicles_loop fuel self orders distance_matrix vehicles routes
      unassigned;
  for_each (salvage_body orders vehicles) routes unassigned.

(** *** 2-opt *)

Definition _calculate_route_distance (stops : list nat) : R :=
  match stops with
  | [] => 0.0
  | _ :: _ =>
      foldl (fun total i =>
               total + DistanceMatrix.distance_between
                         (0.0, 0.0) (0.0, INR i * 0.001))
            0 (range 0 (length stops))
  end.

(** [for j in range(i + 2, len(stops))]: the first candidate that
    compares as shorter, if any. *)
Fixpoint scan_j (stops : list nat) (i : nat) (js : list nat)
  : option (list nat) :=
  match js with
  | [] => None
  | j :: js' =>
      let new_stops :=
        take (i + 1) stops ++ reverse (slice (i + 1) (j + 1) stops)
        ++ drop (j + 1) stops in
      let old_distance := _calculate_route_distance stops in
      let new_distance := _calculate_route_distance new_stops in
      if bool_decide (new_distance < old_distance) then Some new_stops
      else scan_j stops i js'
  end.

(** [for i in range(len(stops) - 1)], left at the first improvement. *)
Fixpoint scan_i (stops : list nat) (idxs : list nat) : option (list nat) :=
  match idxs with
  | [] => None
  | i :: idxs' =>
      match scan_j stops i (range (i + 2) (length stops)) with
      | Some new_stops => Some new_stops
      | None => scan_i stops idxs'
      end
  end.

(** [while improved: ...] for one route.  Each pass starts from
    [stops = improved_route.stops], and [improved_route.stops] is only
    assigned after the loop: a pass that finds an improvement is followed
    by a pass over the same, unchanged sequence. *)
Fixpoint while_improved (fuel : nat) (route_stops : list nat)
  : option (list nat) :=
  match fuel with
  | O => None
  | S fuel' =>
      let stops := route_stops in
      match scan_i stops (range 0 (length stops - 1)) with
      | Some new_stops => while_improved fuel' route_stops
      | None => Some stops
      end
  end.

Definition improve_body (fuel : nat) (improved_routes : list Route.t)
  (route : Route.t) : option (list Route.t) :=
  stops ← while_improved fuel (Route.stops route);
  Some (improved_routes ++ [Route.set_stops route stops]).

Definition _improve_with_2opt (fuel : nat) (routes : list Route.t)
  (distance_matrix : Matrix) : option (list Route.t) :=
  for_each (improve_body fuel) [] routes.

(** *** optimize *)

Definition optimize (fuel : nat) (self : t) (orders : list Order.t)
  (vehicles : list Vehicle.t) (improve_with_2opt : bool)
  : option (list Route.t * t) :=
  match orders with
  | [] => Some ([], self)
  | _ :: _ =>
      let locations := _extract_locations orders vehicles in
      '(distance_matrix, dm) ←
        DistanceMatrix.compute_distance_matrix (distance_matrix self)
          locations;
      let self := {| distance_matrix := dm;
                     average_speed_kmh := average_speed_kmh self |} in
      routes ← _nearest_neighbor_initial_solution fuel self orders vehicles
                 distance_matrix;
      routes ← (if improve_with_2opt
                then _improve_with_2opt fuel routes distance_matrix
                else Some routes);
      Some (routes, self)
  end.

End RouteOptimizer.

(** * Specification-side notions *)

(** ** Sums and prefixes *)

(** Sum of a list of floats. *)
Definition sum_R (l : list R) : R := foldr Rplus 0 l.

(** Cumulative weight and volume of the first [k] loads of a route. *)
Definition cumulative_weight (route_loads : list (R * R)) (k : nat) : R :=
  sum_R (fst <$> take k route_loads).

Definition cumulative_volume (route_loads : list (R * R)) (k : nat) : R :=
  sum_R (snd <$> take k route_loads).

(** ** Running totals of the capacity validator *)

(** The running total of the code after the floats [xs]: binary64 additions
    taken in order, starting from [0.0]. *)
Definition running_total (xs : list float) : float :=
  fold_left PrimFloat.add xs 0%float.

(** The running totals after the first [k] loads. *)
Definition prefix_weight (route_loads : list (float * float)) (k : nat)
  : float :=
  running_total (take k route_loads).*1.

Definition prefix_volume (route_loads : list (float * float)) (k : nat)
  : float :=
  running_total (take k route_loads).*2.

(** Neither capacity and none of the running totals is a NaN. *)
Definition totals_ordered (self : VehicleCapacityConstraint.t)
  (route_loads : list (float * float)) : Prop :=
  is_nan (VehicleCapacityConstraint.max_weight_kg self) = false
  /\ is_nan (VehicleCapacityConstraint.max_volume_m3 self) = false
  /\ forall k, (1 <= k <= length route_loads)%nat ->
       is_nan (prefix_weight route_loads k) = false
       /\ is_nan (prefix_volume route_loads k) = false.


(** ** The distance matrix while it is being filled *)

(** An [n] by [n] array. *)
Definition square (n : nat) (m : Matrix) : Prop :=
  length m = n /\ forall i row, m !! i = Some row -> length row = n.

(** The haversine distance between the locations at two positions. *)
Definition haversine_at (locations : list Loc) (i j : nat) : R :=
  match locations !! i, locations !! j with
  | Some (lat1, lng1), Some (lat2, lng2) =>
      DistanceMatrix.haversine lat1 lng1 lat2 lng2
  | _, _ => 0
  end.

(** The pair [(a, c)], [a < c], has been written once the loops of
    [compute_distance_matrix] are at row [i], column [b]. *)
Definition written (i b a c : nat) : Prop :=
  (a < c)%nat /\ ((a < i)%nat \/ (a = i /\ (c < b)%nat)).

#[global] Instance written_dec i b a c : Decision (written i b a c).
Proof. unfold written. apply _. Defined.

(** The entry at [(a, c)] at that point. *)
Definition entry (locations : list Loc) (i b a c : nat) : R :=
  if decide (written i b a c) then haversine_at locations a c
  else if decide (written i b c a) then haversine_at locations c a
  else 0.

Definition progress (locations : list Loc) (i b : nat) (m : Matrix) : Prop :=
  square (length locations) m
  /\ forall a c, (a < length locations)%nat -> (c < length locations)%nat ->
                 mget m a c = Some (entry locations i b a c).

(** Every cached matrix is the one built for its key. *)
Definition cache_ok (self : DistanceMatrix.t) : Prop :=
  forall k m, dict_get k (DistanceMatrix._cache self) = Some m ->
              DistanceMatrix.build_matrix k = Some m.

(** ** Routes *)

(** Two routes that differ at most in [stops]. *)
Definition same_metrics (route route' : Route.t) : Prop :=
  Route.vehicle_id route' = Route.vehicle_id route
  /\ Route.total_distance route' = Route.total_distance route
  /\ Route.total_time_minutes route' = Route.total_time_minutes route
  /\ Route.weight_used route' = Route.weight_used route
  /\ Route.volume_used route' = Route.volume_used route.

(** The stops of all routes, route after route. *)
Definition all_stops (routes : list Route.t) : list nat :=
  routes ≫= Route.stops.

(** State of the construction over [n] orders: no index occurs twice among
    the stops of the routes and the unassigned pool, all of them are below
    [n], and no route is empty. *)
Definition solution_ok (n : nat) (routes : list Route.t)
  (unassigned : list nat) : Prop :=
  NoDup (all_stops routes ++ unassigned)
  /\ Forall (fun idx => (idx < n)%nat) (all_stops routes ++ unassigned)
  /\ Forall (fun route => Route.stops route <> []) routes.

(** The (weight, volume) loads of the orders at the given stops, in stop
    order. *)
Definition route_loads (orders : list Order.t) (stops : list nat)
  : list (R * R) :=
  omap (fun idx => order ← orders !! idx;
                   Some (Order.weight_kg order, Order.volume_m3 order))
       stops.

(** Every non-empty prefix of the stops of [route] is within the capacity
    of [vehicle]. *)
Definition within_capacity (orders : list Order.t) (vehicle : Vehicle.t)
  (route : Route.t) : Prop :=
  forall k, (1 <= k <= length (route_loads orders (Route.stops route)))%nat ->
    cumulative_weight (route_loads orders (Route.stops route)) k
      <= Vehicle.max_weight_kg vehicle
    /\ cumulative_volume (route_loads orders (Route.stops route)) k
         <= Vehicle.max_volume_m3 vehicle.

(** The running totals of the [while] loop are the sums over the orders
    appended so far, and every non-empty prefix of these is within the
    capacity of the vehicle. *)
Definition loads_ok (orders : list Order.t) (vehicle : Vehicle.t)
  (stops : list nat) (weight volume : R) : Prop :=
  weight = sum_R (route_loads orders stops).*1
  /\ volume = sum_R (route_loads orders stops).*2
  /\ forall k, (1 <= k <= length (route_loads orders stops))%nat ->
       cumulative_weight (route_loads orders stops) k
         <= Vehicle.max_weight_kg vehicle
       /\ cumulative_volume (route_loads orders stops) k
            <= Vehicle.max_volume_m3 vehicle.

(** [route] belongs to one of [vehicles] and is within its capacity. *)
Definition owned_within_capacity (orders : list Order.t)
  (vehicles : list Vehicle.t) (route : Route.t) : Prop :=
  exists vehicle,
    vehicle ∈ vehicles
    /\ Vehicle.id vehicle = Route.vehicle_id route
    /\ within_capacity orders vehicle route.

(** ** True travel distance *)

(** The pickup and delivery coordinates of the orders at the given stops,
    in visiting order. *)
Definition route_points (orders : list Order.t) (stops : list nat)
  : list Loc :=
  stops ≫= (fun idx =>
              match orders !! idx with
              | Some order =>
                  [Order.pickup_location order; Order.delivery_location order]
              | None => []
              end).

(** Sum of the haversine distances between consecutive points. *)
Fixpoint path_length (points : list Loc) : R :=
  match points with
  | p :: (q :: _) as rest =>
      DistanceMatrix.distance_between p q + path_length rest
  | _ => 0
  end.

(** The true stop-to-stop distance of a stop sequence, over the real
    coordinates of its orders. *)
Definition true_route_distance (orders : list Order.t) (stops : list nat)
  : R :=
  path_length (route_points orders stops).

(** The total over a list of routes. *)
Definition total_route_distance (orders : list Order.t)
  (routes : list Route.t) : R :=
  sum_R ((fun route => true_route_distance orders (Route.stops route))
           <$> routes).

(** ** Concrete inputs

    Three vehicles of 10, 50 and 20 kg and four orders of 20 kg and 1 m3,
    all at one place; and one order across half the equator. *)

(** An order of 20 kg and 1 m3, picked up and delivered at (0, 0). *)
Definition bug_order (name : string) : Order.t :=
  {| Order.id := name;
     Order.pickup_location := (0, 0);
     Order.delivery_location := (0, 0);
     Order.time_window := TimeWindow.mk 0 0;
     Order.weight_kg := 20;
     Order.volume_m3 := 1 |}.

Definition bug_orders : list Order.t :=
  [bug_order "o0"; bug_order "o1"; bug_order "o2"; bug_order "o3"].

(** A vehicle of 10 m3 that starts at (0, 0) and has no end location. *)
Definition bug_vehicle (name : string) (max_weight_kg : R) : Vehicle.t :=
  {| Vehicle.id := name;
     Vehicle.max_weight_kg := max_weight_kg;
     Vehicle.max_volume_m3 := 10;
     Vehicle.start_location := (0, 0);
     Vehicle.end_location := None |}.

Definition bug_vehicles : list Vehicle.t :=
  [bug_vehicle "v0" 10; bug_vehicle "v1" 50; bug_vehicle "v2" 20].

(** One order across half the equator. *)
Definition far_order : Order.t :=
  {| Order.id := "o0";
     Order.pickup_location := (0, 0);
     Order.delivery_location := (0, 180);
     Order.time_window := TimeWindow.mk 0 0;
     Order.weight_kg := 1;
     Order.volume_m3 := 1 |}.

(** Closes [Forall (fun idx => idx < n) l] on concrete [l]. *)
Ltac below_four := repeat constructor; lia.

(** ** Further notions: distance.py *)

(** The value [a] of [haversine], the argument of [math.sqrt]. *)
Definition haversine_a (lat1 lng1 lat2 lng2 : R) : R :=
  sin ((DistanceMatrix.radians lat2 - DistanceMatrix.radians lat1) / 2) ^ 2
  + cos (DistanceMatrix.radians lat1) * cos (DistanceMatrix.radians lat2)
    * sin ((DistanceMatrix.radians lng2 - DistanceMatrix.radians lng1) / 2)
      ^ 2.

(** The test of [bounding_box_query] on one location. *)
Definition in_box (center : Loc) (lat_delta lng_delta : R) (loc : Loc)
  : Prop :=
  Rabs (loc.1 - center.1) <= lat_delta
  /\ Rabs (loc.2 - center.2) <= lng_delta.

(** Two points on the equator, half the sphere apart. *)
Definition equator_points : list Loc := [(0, 0); (0, 180)].

(** ** Further notions: constraints.py *)

(** Minutes from midnight, as [validate] computes them from [hour] and
    [minute]. *)
Definition minute_of_day (instant : Z) : Z :=
  (datetime_hour instant * 60 + datetime_minute instant)%Z.

(** ** The default driver-hours rule, checked minute by minute *)

(** [test] holds of the [n] integers from [lo] on. *)
Fixpoint all_from (test : Z -> bool) (lo : Z) (n : nat) : bool :=
  match n with
  | O => true
  | S n' => test lo && all_from test (lo + 1)%Z n'
  end.

(** For [minutes] the test [minutes / 60.0 > hours] of the code answers as
    the integers do: it is true exactly when [minutes > limit]. *)
Definition hours_test_exact (hours : float) (limit : Z) (minutes : Z)
  : bool :=
  match float_of_int minutes with
  | Some x => Bool.eqb (float_gt (x / 60.0)%float hours) (limit <? minutes)%Z
  | None => false
  end.

(** The bound [(driving / 60.0 + 0.5) * 60] of the code lies above
    [driving + 29] and not above [driving + 31]. *)
Definition break_bound_near (driving : Z) : bool :=
  match float_of_int driving with
  | Some x =>
      let min_total_with_break := ((x / 60.0 + 0.5) * 60)%float in
      int_lt_float (driving + 29) min_total_with_break
      && negb (int_lt_float (driving + 31) min_total_with_break)
  | None => false
  end.

(** The minutes of a week. *)
Definition week_minutes : Z := 10080.

(** ** Further notions: optimizer.py *)

(** Total weight and total volume of a list of loads. *)
Definition total_weight (route_loads : list (R * R)) : R :=
  sum_R route_loads.*1.

Definition total_volume (route_loads : list (R * R)) : R :=
  sum_R route_loads.*2.

(** [weight_used] and [volume_used] of [route] are the sums over the orders
    at its stops. *)
Definition loads_agree (orders : list Order.t) (route : Route.t) : Prop :=
  Route.weight_used route
  = total_weight (route_loads orders (Route.stops route))
  /\ Route.volume_used route
     = total_volume (route_loads orders (Route.stops route)).

(** One vehicle, its capacity beyond what the orders above weigh. *)
Definition roomy_vehicle : Vehicle.t := bug_vehicle "v1" 50.

(** [order] can be added to a vehicle that already carries
    [current_weight] and [current_volume]. *)
Definition fits (vehicle : Vehicle.t) (current_weight current_volume : R)
  (order : Order.t) : Prop :=
  current_weight + Order.weight_kg order <= Vehicle.max_weight_kg vehicle
  /\ current_volume + Order.volume_m3 order <= Vehicle.max_volume_m3 vehicle.

(** What the loop over [unassigned] has found after the indices [seen]:
    nothing when no order seen fits; otherwise a fitting order at minimal
    distance, the first of those at that distance. *)
Definition nearest_of (orders : list Order.t) (vehicle : Vehicle.t)
  (current_weight current_volume : R) (current_location : Loc)
  (seen : list nat) (best : option nat * ExtFloat) : Prop :=
  match best.1 with
  | None =>
      best.2 = PosInf
      /\ forall idx order,
           idx ∈ seen -> orders !! idx = Some order ->
           ~ fits vehicle current_weight current_volume order
  | Some best_idx =>
      exists best_order before after,
        seen = before ++ best_idx :: after
        /\ orders !! best_idx = Some best_order
        /\ fits vehicle current_weight current_volume best_order
        /\ best.2
           = Finite (DistanceMatrix.distance_between current_location
                       (Order.pickup_location best_order))
        /\ (forall idx order,
              idx ∈ before -> orders !! idx = Some order ->
              fits vehicle current_weight current_volume order ->
              DistanceMatrix.distance_between current_location
                (Order.pickup_location best_order)
              < DistanceMatrix.distance_between current_location
                  (Order.pickup_location order))
        /\ (forall idx order,
              idx ∈ after -> orders !! idx = Some order ->
              fits vehicle current_weight current_volume order ->
              DistanceMatrix.distance_between current_location
                (Order.pickup_location best_order)
              <= DistanceMatrix.distance_between current_location
                   (Order.pickup_location order))
  end.

(** [after] is [before] with stops appended at most: the same vehicle, the
    same total distance and time, the stops of [before] first. *)
Definition only_appended (before after : Route.t) : Prop :=
  Route.vehicle_id after = Route.vehicle_id before
  /\ Route.stops before `prefix_of` Route.stops after
  /\ Route.total_distance after = Route.total_distance before
  /\ Route.total_time_minutes after = Route.total_time_minutes before.

(** * Theorems *)

(** ** Loops *)

(** Invariant rule for [for_each]: [I done s] relates the state to the
    elements already visited. *)
Lemma for_each_invariant {A S : Type} (f : S -> A -> option S)
  (I : list A -> S -> Prop) (l : list A) (s : S) :
  I [] s ->
  (forall done x rest s,
      l = done ++ x :: rest -> I done s ->
      exists s', f s x = Some s' /\ I (done ++ [x]) s') ->
  exists s', for_each f s l = Some s' /\ I l s'.
Proof.
  revert I s. induction l as [|x l IH]; intros I s H0 Hstep.
  - exists s. split; [reflexivity | exact H0].
  - destruct (Hstep [] x l s eq_refl H0) as (s1 & Hf & H1).
    simpl. rewrite Hf.
    apply (IH (fun done => I (x :: done)) s1 H1).
    intros done y rest s2 -> HI.
    apply (Hstep (x :: done) y rest s2 eq_refl HI).
Qed.

Lemma range_length (a b : nat) : length (range a b) = (b - a)%nat.
Proof. unfold range. apply length_seq. Qed.

Lemma range_split (a b : nat) (done rest : list nat) (x : nat) :
  range a b = done ++ x :: rest ->
  x = (a + length done)%nat /\ (x < b)%nat.
Proof.
  unfold range. intros H.
  assert (Hx : seq a (b - a) !! length done = Some x).
  { rewrite H. rewrite lookup_app_r by lia.
    replace (length done - length done)%nat with 0%nat by lia. reflexivity. }
  apply lookup_seq in Hx. lia.
Qed.

(** ** Comparisons of floats *)

Lemma is_nan_false (x : float) :
  is_nan x = false -> Prim2SF x <> S754_nan.
Proof.
  unfold is_nan. rewrite FloatAxioms.eqb_spec. intros H E.
  rewrite E in H. discriminate.
Qed.

(** Without a NaN, [x <= y] is the negation of [x > y]. *)
Lemma float_le_not_gt (x y : float) :
  is_nan x = false -> is_nan y = false ->
  (x <=? y)%float = negb (float_gt x y).
Proof.
  intros Hx Hy. apply is_nan_false in Hx, Hy.
  unfold float_gt. rewrite leb_spec, ltb_spec.
  unfold SFleb, SFltb.
  destruct (Prim2SF x) as [sx|sx| |sx mx ex];
    destruct (Prim2SF y) as [sy|sy| |sy my ey];
    try contradiction; cbn [SFcompare];
    try (destruct sx); try (destruct sy); try reflexivity.
  - rewrite (Z.compare_antisym ex ey).
    destruct (ex ?= ey)%Z; cbn [CompOpp]; try reflexivity.
    change (PosDef.Pos.compare_cont Eq my mx)
      with (Pos.compare_cont (CompOpp Eq) my mx).
    rewrite <- (Pos.compare_cont_antisym mx my Eq).
    destruct (Pos.compare_cont Eq mx my); reflexivity.
  - rewrite (Z.compare_antisym ex ey).
    destruct (ex ?= ey)%Z; cbn [CompOpp]; try reflexivity.
    change (PosDef.Pos.compare_cont Eq my mx)
      with (Pos.compare_cont (CompOpp Eq) my mx).
    rewrite <- (Pos.compare_cont_antisym mx my Eq).
    destruct (Pos.compare_cont Eq mx my); reflexivity.
Qed.


(** ** Capacity validator *)

Lemma validate_loop_spec (self : VehicleCapacityConstraint.t)
  (route_loads : list (float * float)) :
  forall tw tv,
    VehicleCapacityConstraint.validate_loop self tw tv route_loads = true <->
    (forall k, (1 <= k <= length route_loads)%nat ->
       float_gt (fold_left PrimFloat.add (take k route_loads).*1 tw)
         (VehicleCapacityConstraint.max_weight_kg self) = false
       /\ float_gt (fold_left PrimFloat.add (take k route_loads).*2 tv)
            (VehicleCapacityConstraint.max_volume_m3 self) = false).
Proof.
  induction route_loads as [|[w v] rest IH]; intros tw tv.
  - split; [intros _ k Hk; simpl in Hk; lia | reflexivity].
  - cbn [VehicleCapacityConstraint.validate_loop].
    destruct (float_gt (tw + w) _) eqn:Hw.
    { split; [discriminate |]. intros Hall.
      destruct (Hall 1%nat) as [Hw' _]; [simpl; lia |].
      rewrite <- Hw, <- Hw'. reflexivity. }
    destruct (float_gt (tv + v) _) eqn:Hv.
    { split; [discriminate |]. intros Hall.
      destruct (Hall 1%nat) as [_ Hv']; [simpl; lia |].
      rewrite <- Hv, <- Hv'. reflexivity. }
    rewrite IH. split; intros Hall k Hk.
    + destruct k as [|[|k]]; [lia | split; [exact Hw | exact Hv] |].
      apply (Hall (S k)). simpl in Hk. lia.
    + apply (Hall (S k)). simpl. lia.
Qed.

(** C5. [VehicleCapacityConstraint.validate] returns true on the empty
    sequence; on every sequence it returns true exactly when after no
    non-empty prefix a running total exceeds its maximum; and when no NaN
    is involved this says that every non-empty prefix has cumulative weight
    at most the maximum weight and cumulative volume at most the maximum
    volume.  The cumulative values are the running totals of the code:
    binary64 sums taken in the order of the sequence. *)
Theorem capacity_validate_iff_prefixes (self : VehicleCapacityConstraint.t) :
  VehicleCapacityConstraint.validate self [] = true
  /\ forall route_loads : list (float * float),
       (VehicleCapacityConstraint.validate self route_loads = true <->
        forall k, (1 <= k <= length route_loads)%nat ->
          float_gt (prefix_weight route_loads k)
            (VehicleCapacityConstraint.max_weight_kg self) = false
          /\ float_gt (prefix_volume route_loads k)
               (VehicleCapacityConstraint.max_volume_m3 self) = false)
       /\ (totals_ordered self route_loads ->
           (VehicleCapacityConstraint.validate self route_loads = true <->
            forall k, (1 <= k <= length route_loads)%nat ->
              (prefix_weight route_loads k
               <=? VehicleCapacityConstraint.max_weight_kg self)%float = true
              /\ (prefix_volume route_loads k
                  <=? VehicleCapacityConstraint.max_volume_m3 self)%float
                 = true)).
Proof.
  split; [reflexivity |].
  intros route_loads.
  assert (Hgt : VehicleCapacityConstraint.validate self route_loads = true <->
                forall k, (1 <= k <= length route_loads)%nat ->
                  float_gt (prefix_weight route_loads k)
                    (VehicleCapacityConstraint.max_weight_kg self) = false
                  /\ float_gt (prefix_volume route_loads k)
                       (VehicleCapacityConstraint.max_volume_m3 self) = false)
    by apply validate_loop_spec.
  split; [exact Hgt |].
  intros (Hmw & Hmv & Htotals). rewrite Hgt.
  split; intros Hall k Hk; destruct (Hall k Hk) as [Hw Hv];
    destruct (Htotals k Hk) as [Hnw Hnv].
  - rewrite !float_le_not_gt by assumption. rewrite Hw, Hv. split; reflexivity.
  - rewrite float_le_not_gt in Hw, Hv by assumption.
    split; apply negb_true_iff; assumption.
Qed.

#[local] Set Warnings "-inexact-float".

(** The verdict follows the rounded totals.  Loads of 0.2, 0.4 and 0.3 kg
    are refused by a vehicle of 0.9 kg: their running total is
    0.9000000000000001.  In the order 0.3, 0.4, 0.2 they are accepted: the
    total is 0.8999999999999999.  And 1 kg on top of 2^53 kg leaves the
    total at 2^53 kg. *)
Lemma capacity_validate_rounding :
  VehicleCapacityConstraint.validate (VehicleCapacityConstraint.mk 0.9 1)
    [(0.2, 0); (0.4, 0); (0.3, 0)]%float = false
  /\ VehicleCapacityConstraint.validate (VehicleCapacityConstraint.mk 0.9 1)
       [(0.3, 0); (0.4, 0); (0.2, 0)]%float = true
  /\ prefix_weight [(0.2, 0); (0.4, 0); (0.3, 0)]%float 3
     = 0.9000000000000001%float
  /\ prefix_weight [(0.3, 0); (0.4, 0); (0.2, 0)]%float 3
     = 0.8999999999999999%float
  /\ VehicleCapacityConstraint.validate
       (VehicleCapacityConstraint.mk 9007199254740992 1)
       [(9007199254740992, 0); (1, 0)]%float = true.
Proof. repeat split; vm_compute; reflexivity. Qed.

(** ** Driver-hours validator *)


(** A conversion that overflows raises [OverflowError]; nothing else
    raises. *)
Lemma driver_hours_validate_raises (self : DriverHoursConstraint.t)
  (total_time_minutes driving_time_minutes : Z) :
  DriverHoursConstraint.validate self total_time_minutes driving_time_minutes
  = None <->
  float_of_int total_time_minutes = None
  \/ float_of_int driving_time_minutes = None.
Proof.
  unfold DriverHoursConstraint.validate.
  destruct (float_of_int total_time_minutes) as [total|];
    [| split; [left; reflexivity | reflexivity]].
  destruct (float_of_int driving_time_minutes) as [driving|];
    [| split; [right; reflexivity | reflexivity]].
  cbn [mbind option_bind].
  split; [| intros [H | H]; discriminate].
  destruct (float_gt _ _); [discriminate |].
  destruct (float_gt _ _); [| discriminate].
  destruct (int_lt_float _ _); discriminate.
Qed.

(** Rounding decides at the boundary: with the default limits, 453 minutes
    of driving ask for (453 / 60.0 + 0.5) * 60 = 483.00000000000006 minutes
    in total, so that 483 minutes are refused and 484 accepted. *)
Lemma driver_hours_validate_rounding :
  DriverHoursConstraint.validate DriverHoursConstraint.default 483 453
  = Some false
  /\ DriverHoursConstraint.validate DriverHoursConstraint.default 484 453
     = Some true
  /\ ((453 / 60.0 + 0.5) * 60)%float = 483.00000000000006%float.
Proof. repeat split; vm_compute; reflexivity. Qed.

#[local] Set Warnings "inexact-float".

(** ** Distance matrix *)

Lemma zeros_square (n : nat) : square n (zeros n).
Proof.
  unfold zeros. split; [apply length_replicate |].
  intros i row Hrow. apply lookup_replicate in Hrow as [-> _].
  apply length_replicate.
Qed.

Lemma mget_zeros (n i j : nat) :
  (i < n)%nat -> (j < n)%nat -> mget (zeros n) i j = Some 0.
Proof.
  intros Hi Hj. unfold mget, zeros.
  rewrite lookup_replicate_2 by assumption. simpl.
  apply lookup_replicate_2. assumption.
Qed.

Lemma mset_square (n : nat) (m : Matrix) (i j : nat) (v : R) :
  square n m -> (i < n)%nat -> (j < n)%nat ->
  exists m', mset m i j v = Some m' /\ square n m'
             /\ forall a c, mget m' a c
                            = if decide (a = i /\ c = j) then Some v
                              else mget m a c.
Proof.
  intros [Hlen Hrows] Hi Hj. unfold mset.
  destruct (lookup_lt_is_Some_2 m i ltac:(lia)) as [row Hrow].
  rewrite Hrow. simpl. pose proof (Hrows i row Hrow) as Hl.
  rewrite decide_True by lia.
  eexists. split; [reflexivity |]. split.
  - split; [rewrite length_insert; exact Hlen |].
    intros a r Ha. destruct (decide (a = i)) as [-> | Hne].
    + rewrite list_lookup_insert_eq in Ha by lia.
      injection Ha as <-. rewrite length_insert. exact Hl.
    + rewrite list_lookup_insert_ne in Ha by congruence. eauto.
  - intros a c. unfold mget. destruct (decide (a = i)) as [-> | Hne].
    + rewrite list_lookup_insert_eq by lia. simpl. rewrite Hrow. simpl.
      destruct (decide (c = j)) as [-> | Hne].
      * rewrite decide_True by auto. apply list_lookup_insert_eq. lia.
      * rewrite decide_False by tauto.
        apply list_lookup_insert_ne. congruence.
    + rewrite decide_False by tauto.
      rewrite list_lookup_insert_ne by congruence. reflexivity.
Qed.

Section BuildMatrix.

Variable locations : list Loc.

Local Abbreviation n := (length locations).
Local Abbreviation haversine_at := (haversine_at locations).
Local Abbreviation entry := (entry locations).
Local Abbreviation progress := (progress locations).

Lemma progress_next_row (i : nat) (m : Matrix) :
  progress i (Nat.max n (i + 1)) m -> progress (i + 1) (i + 2) m.
Proof.
  intros [Hsq Hm]. split; [exact Hsq |].
  intros a c Ha Hc. rewrite (Hm a c Ha Hc). f_equal. unfold entry.
  repeat case_decide; try reflexivity; unfold written in *; exfalso; lia.
Qed.

Lemma inner_body_progress (i j : nat) (m : Matrix) :
  (i < j)%nat -> (j < n)%nat -> progress i j m ->
  exists m', DistanceMatrix.inner_body locations i m j = Some m'
             /\ progress i (j + 1) m'.
Proof.
  intros Hij Hj [Hsq Hm]. unfold DistanceMatrix.inner_body.
  destruct (lookup_lt_is_Some_2 locations i ltac:(lia))
    as [[lat1 lng1] Hli].
  destruct (lookup_lt_is_Some_2 locations j ltac:(lia))
    as [[lat2 lng2] Hlj].
  rewrite Hli, Hlj. simpl.
  destruct (mset_square n m i j (DistanceMatrix.haversine lat1 lng1 lat2 lng2)
              Hsq ltac:(lia) Hj) as (m1 & E1 & Hsq1 & Hget1).
  rewrite E1. simpl.
  destruct (mset_square n m1 j i
              (DistanceMatrix.haversine lat1 lng1 lat2 lng2)
              Hsq1 Hj ltac:(lia)) as (m2 & E2 & Hsq2 & Hget2).
  exists m2. split; [exact E2 |]. split; [exact Hsq2 |].
  intros a c Ha Hc. rewrite Hget2, Hget1, (Hm a c Ha Hc).
  assert (Hh : haversine_at i j
               = DistanceMatrix.haversine lat1 lng1 lat2 lng2).
  { unfold haversine_at. rewrite Hli, Hlj. reflexivity. }
  unfold entry.
  repeat case_decide; unfold written in *;
    try reflexivity; try (exfalso; lia).
  - destruct_and!; subst. rewrite Hh. reflexivity.
  - destruct_and!; subst. rewrite Hh. reflexivity.
Qed.

Lemma outer_body_progress (i : nat) (m : Matrix) :
  (i < n)%nat -> progress i (i + 1) m ->
  exists m', DistanceMatrix.outer_body locations n m i = Some m'
             /\ progress (i + 1) (i + 2) m'.
Proof.
  intros Hi Hm. unfold DistanceMatrix.outer_body.
  destruct (for_each_invariant (DistanceMatrix.inner_body locations i)
              (fun done m => progress i (i + 1 + length done) m)
              (range (i + 1) n) m) as (m' & E & Hm').
  - simpl. replace (i + 1 + 0)%nat with (i + 1)%nat by lia. exact Hm.
  - intros done j rest m0 Hsplit Hm0.
    apply range_split in Hsplit as [-> Hlt].
    destruct (inner_body_progress i (i + 1 + length done) m0
                ltac:(lia) Hlt Hm0) as (m1 & E1 & Hm1).
    exists m1. split; [exact E1 |].
    rewrite length_app. simpl.
    replace (i + 1 + (length done + 1))%nat
      with (i + 1 + length done + 1)%nat by lia.
    exact Hm1.
  - exists m'. split; [exact E |].
    apply progress_next_row. rewrite range_length in Hm'.
    replace (Nat.max n (i + 1)) with (i + 1 + (n - (i + 1)))%nat by lia.
    exact Hm'.
Qed.

Lemma build_matrix_progress :
  exists m, DistanceMatrix.build_matrix locations = Some m
            /\ progress n (n + 1) m.
Proof.
  unfold DistanceMatrix.build_matrix.
  destruct (for_each_invariant (DistanceMatrix.outer_body locations n)
              (fun done m => progress (length done) (length done + 1) m)
              (range 0 n) (zeros n)) as (m & E & Hm).
  - split; [apply zeros_square |].
    intros a c Ha Hc. rewrite mget_zeros by assumption. f_equal.
    unfold entry. repeat case_decide; unfold written in *;
      try reflexivity; exfalso; simpl in *; lia.
  - intros done i rest m0 Hsplit Hm0.
    apply range_split in Hsplit as [-> Hlt]. simpl in *.
    destruct (outer_body_progress (length done) m0 Hlt Hm0)
      as (m1 & E1 & Hm1).
    exists m1. split; [exact E1 |].
    rewrite length_app. simpl.
    replace (length done + 1 + 1)%nat with (length done + 2)%nat by lia.
    exact Hm1.
  - exists m. split; [exact E |].
    rewrite range_length in Hm.
    replace (n - 0)%nat with n in Hm by lia. exact Hm.
Qed.

End BuildMatrix.

Lemma dict_get_set {K V : Type} `{EqDecision K} (k k' : K) (v : V)
  (d : list (K * V)) :
  dict_get k' (dict_set k v d)
  = if decide (k' = k) then Some v else dict_get k' d.
Proof.
  unfold dict_set. simpl. destruct (decide (k' = k)) as [Heq | Hne];
    [reflexivity |].
  induction d as [|[k0 v0] d IH]; [reflexivity |].
  rewrite filter_cons. simpl.
  destruct (decide (k0 <> k)) as [Hk0 | Hk0]; simpl.
  - rewrite IH. reflexivity.
  - rewrite IH. rewrite decide_False; [reflexivity |].
    intros ->. apply Hk0. exact Hne.
Qed.

Lemma cache_ok_init (use_cache : bool) :
  cache_ok (DistanceMatrix.init use_cache).
Proof. intros k m. simpl. discriminate. Qed.

Lemma cache_ok_clear (self : DistanceMatrix.t) :
  cache_ok (DistanceMatrix.clear_cache self).
Proof. intros k m. simpl. discriminate. Qed.

Lemma build_matrix_entries (locations : list Loc) :
  exists m, DistanceMatrix.build_matrix locations = Some m
    /\ (forall i j, (i < length locations)%nat -> (j < length locations)%nat ->
                    exists d, mget m i j = Some d /\ mget m j i = Some d)
    /\ (forall i, (i < length locations)%nat -> mget m i i = Some 0)
    /\ (forall i j loc_i loc_j,
           (i < j)%nat ->
           locations !! i = Some loc_i -> locations !! j = Some loc_j ->
           mget m i j = Some (DistanceMatrix.distance_between loc_i loc_j)
           /\ mget m j i = Some (DistanceMatrix.distance_between loc_i loc_j)).
Proof.
  destruct (build_matrix_progress locations) as (m & E & _ & Hm).
  exists m. split; [exact E |].
  split; [| split; [| intros i j loc_i loc_j Hij H0 H1; split]].
  - intros i j Hi Hj. eexists. split; [apply Hm; assumption |].
    rewrite Hm by assumption. f_equal. unfold entry.
    repeat case_decide; unfold written in *; try reflexivity; exfalso; lia.
  - intros i Hi. rewrite Hm by assumption. f_equal. unfold entry.
    repeat case_decide; unfold written in *; try reflexivity; exfalso; lia.
  - rewrite Hm.
    + f_equal. unfold entry. rewrite decide_True.
      * unfold haversine_at. rewrite H0, H1.
        destruct loc_i, loc_j. reflexivity.
      * unfold written. apply lookup_lt_Some in H0. lia.
    + apply lookup_lt_Some in H0. lia.
    + apply lookup_lt_Some in H1. lia.
  - rewrite Hm.
    + f_equal. unfold entry. rewrite decide_False.
      * rewrite decide_True.
        -- unfold haversine_at. rewrite H0, H1.
           destruct loc_i, loc_j. reflexivity.
        -- unfold written. apply lookup_lt_Some in H0. lia.
      * unfold written. lia.
    + apply lookup_lt_Some in H1. lia.
    + apply lookup_lt_Some in H0. lia.
Qed.

(** C4. Whatever the list of locations, [compute_distance_matrix] returns a
    matrix that is symmetric with a zero diagonal, and whose entries at
    [(i, j)] and [(j, i)], [i < j], are the haversine distance between
    locations [i] and [j].  The object is any [DistanceMatrix] whose cache
    holds only matrices that [compute_distance_matrix] stored there, and it
    is left in such a state. *)
Theorem compute_distance_matrix_symmetric (self : DistanceMatrix.t)
  (locations : list Loc) :
  cache_ok self ->
  exists matrix self',
    DistanceMatrix.compute_distance_matrix self locations
    = Some (matrix, self')
    /\ cache_ok self'
    /\ (forall i j, (i < length locations)%nat -> (j < length locations)%nat ->
                    exists d, mget matrix i j = Some d
                              /\ mget matrix j i = Some d)
    /\ (forall i, (i < length locations)%nat -> mget matrix i i = Some 0)
    /\ (forall i j loc_i loc_j,
           (i < j)%nat ->
           locations !! i = Some loc_i -> locations !! j = Some loc_j ->
           mget matrix i j
           = Some (DistanceMatrix.haversine loc_i.1 loc_i.2 loc_j.1 loc_j.2)
           /\ mget matrix j i
              = Some (DistanceMatrix.haversine
                        loc_i.1 loc_i.2 loc_j.1 loc_j.2)).
Proof.
  intros Hok.
  destruct (build_matrix_entries locations) as (m & E & Hsym & Hdiag & Hoff).
  unfold DistanceMatrix.compute_distance_matrix.
  destruct (DistanceMatrix.use_cache self) eqn:Huse.
  - destruct (dict_get locations (DistanceMatrix._cache self)) as [cached|]
      eqn:Hhit.
    + apply Hok in Hhit. rewrite E in Hhit. injection Hhit as <-.
      exists m, self. auto.
    + rewrite E. simpl. eexists m, _. split; [reflexivity |].
      split; [| auto].
      intros k m'. cbn [DistanceMatrix._cache]. rewrite dict_get_set.
      case_decide as Hk; [| apply Hok].
      intros [= <-]. subst k. exact E.
  - rewrite E. simpl. exists m, self. auto.
Qed.

(** A fresh caching [DistanceMatrix], two locations. *)
Lemma compute_distance_matrix_symmetric_witness :
  exists matrix self',
    DistanceMatrix.compute_distance_matrix (DistanceMatrix.init true)
      [(0, 0); (0, 180)]
    = Some (matrix, self')
    /\ cache_ok self'
    /\ (forall i j, (i < 2)%nat -> (j < 2)%nat ->
                    exists d, mget matrix i j = Some d
                              /\ mget matrix j i = Some d)
    /\ (forall i, (i < 2)%nat -> mget matrix i i = Some 0)
    /\ (forall i j (loc_i loc_j : Loc),
           (i < j)%nat ->
           [(0, 0); (0, 180)] !! i = Some loc_i ->
           [(0, 0); (0, 180)] !! j = Some loc_j ->
           mget matrix i j
           = Some (DistanceMatrix.haversine loc_i.1 loc_i.2 loc_j.1 loc_j.2)
           /\ mget matrix j i
              = Some (DistanceMatrix.haversine
                        loc_i.1 loc_i.2 loc_j.1 loc_j.2)).
Proof.
  apply (compute_distance_matrix_symmetric (DistanceMatrix.init true)
           [(0, 0); (0, 180)]).
  apply cache_ok_init.
Defined.

(** ** Haversine at particular points *)

Lemma haversine_same (lat lng : R) :
  DistanceMatrix.haversine lat lng lat lng = 0.
Proof.
  unfold DistanceMatrix.haversine.
  replace (DistanceMatrix.radians lat - DistanceMatrix.radians lat) with 0
    by lra.
  replace (DistanceMatrix.radians lng - DistanceMatrix.radians lng) with 0
    by lra.
  replace (0 / 2) with 0 by lra.
  rewrite sin_0.
  replace (0 ^ 2 + cos (DistanceMatrix.radians lat)
                   * cos (DistanceMatrix.radians lat) * 0 ^ 2) with 0
    by (simpl; lra).
  rewrite sqrt_0, asin_0. lra.
Qed.

Lemma distance_between_same (loc : Loc) :
  DistanceMatrix.distance_between loc loc = 0.
Proof. unfold DistanceMatrix.distance_between. apply haversine_same. Qed.

(** Half the equator: from (0, 0) to (0, 180). *)
Lemma haversine_half_equator :
  DistanceMatrix.haversine 0 0 0 180 = 6371 * PI.
Proof.
  unfold DistanceMatrix.haversine, DistanceMatrix.radians,
    DistanceMatrix.EARTH_RADIUS_KM.
  replace ((0 * (PI / 180) - 0 * (PI / 180)) / 2) with 0 by lra.
  replace ((180 * (PI / 180) - 0 * (PI / 180)) / 2) with (PI / 2) by lra.
  replace (0 * (PI / 180)) with 0 by lra.
  rewrite sin_0, cos_0, sin_PI2.
  replace (0 ^ 2 + 1 * 1 * 1 ^ 2) with 1 by (simpl; lra).
  rewrite sqrt_1, asin_1. lra.
Qed.

(** ** 2-opt *)

Lemma calculate_route_distance_length (stops stops' : list nat) :
  length stops = length stops' ->
  RouteOptimizer._calculate_route_distance stops
  = RouteOptimizer._calculate_route_distance stops'.
Proof.
  intros Hlen. unfold RouteOptimizer._calculate_route_distance.
  destruct stops, stops'; try discriminate; [reflexivity |].
  rewrite Hlen. reflexivity.
Qed.

Lemma reversal_length (stops : list nat) (i j : nat) :
  (i < j)%nat -> (j < length stops)%nat ->
  length (take (i + 1) stops ++ reverse (slice (i + 1) (j + 1) stops)
          ++ drop (j + 1) stops)
  = length stops.
Proof.
  intros Hij Hj. unfold slice.
  rewrite !length_app, length_reverse, length_drop, !length_take, length_drop.
  lia.
Qed.

Lemma scan_j_none (stops : list nat) (i : nat) (js : list nat) :
  Forall (fun j => (i < j)%nat /\ (j < length stops)%nat) js ->
  RouteOptimizer.scan_j stops i js = None.
Proof.
  induction 1 as [|j js [Hij Hj] _ IH]; [reflexivity |].
  cbn [RouteOptimizer.scan_j].
  rewrite (calculate_route_distance_length _ stops)
    by (apply reversal_length; assumption).
  rewrite bool_decide_false by lra. exact IH.
Qed.

Lemma scan_i_none (stops : list nat) (idxs : list nat) :
  RouteOptimizer.scan_i stops idxs = None.
Proof.
  induction idxs as [|i idxs IH]; [reflexivity |].
  cbn [RouteOptimizer.scan_i]. rewrite scan_j_none; [exact IH |].
  apply Forall_forall. intros j Hin. unfold range in Hin.
  apply elem_of_seq in Hin. lia.
Qed.

(** One pass finds nothing and the loop is left with the sequence it
    started from. *)
Lemma while_improved_returns (fuel : nat) (route_stops : list nat) :
  RouteOptimizer.while_improved (S fuel) route_stops = Some route_stops.
Proof.
  cbn [RouteOptimizer.while_improved]. rewrite scan_i_none. reflexivity.
Qed.

Lemma set_stops_same (route : Route.t) :
  Route.set_stops route (Route.stops route) = route.
Proof. destruct route. reflexivity. Qed.

Lemma improve_loop_identity (fuel : nat) (routes acc : list Route.t) :
  for_each (RouteOptimizer.improve_body (S fuel)) acc routes
  = Some (acc ++ routes).
Proof.
  revert acc. induction routes as [|route routes IH]; intros acc.
  - simpl. rewrite app_nil_r. reflexivity.
  - cbn [for_each]. unfold RouteOptimizer.improve_body at 1.
    rewrite while_improved_returns. simpl. rewrite set_stops_same.
    rewrite IH, <- app_assoc. reflexivity.
Qed.

Lemma improve_with_2opt_identity (fuel : nat) (routes : list Route.t)
  (distance_matrix : Matrix) :
  RouteOptimizer._improve_with_2opt (S fuel) routes distance_matrix
  = Some routes.
Proof.
  unfold RouteOptimizer._improve_with_2opt. apply improve_loop_identity.
Qed.

(** The loop over the routes only ever replaces [stops]; this does not
    depend on which sequence the inner loops settle on. *)
Lemma improve_loop_frame (fuel : nat) (routes acc out : list Route.t) :
  for_each (RouteOptimizer.improve_body fuel) acc routes = Some out ->
  exists improved,
    out = acc ++ improved /\ Forall2 same_metrics routes improved.
Proof.
  revert acc. induction routes as [|route routes IH]; intros acc.
  - simpl. intros [= <-]. exists []. rewrite app_nil_r.
    split; [reflexivity | constructor].
  - cbn [for_each]. unfold RouteOptimizer.improve_body at 1.
    destruct (RouteOptimizer.while_improved fuel (Route.stops route))
      as [stops|]; [| discriminate].
    simpl. intros Hrest. apply IH in Hrest as (improved & -> & Hall).
    exists (Route.set_stops route stops :: improved).
    rewrite <- app_assoc. split; [reflexivity |].
    constructor; [| exact Hall]. unfold same_metrics. simpl. tauto.
Qed.

(** C9. The 2-opt phase returns one route per input route, in the same
    order, and each has the vehicle id, total distance, total time, weight
    used and volume used of the input route it comes from: only [stops] is
    assigned. *)
Theorem improve_with_2opt_keeps_metrics (fuel : nat)
  (routes : list Route.t) (distance_matrix : Matrix) :
  exists improved,
    RouteOptimizer._improve_with_2opt (S fuel) routes distance_matrix
    = Some improved
    /\ Forall2 same_metrics routes improved.
Proof.
  exists routes. split; [apply improve_with_2opt_identity |].
  pose proof (improve_with_2opt_identity fuel routes distance_matrix) as E.
  unfold RouteOptimizer._improve_with_2opt in E.
  apply improve_loop_frame in E as (improved & E & Hall).
  simpl in E. subst improved. exact Hall.
Qed.

(** ** Greedy construction: which indices end up where *)

Lemma set_remove_perm (x : nat) (s : list nat) :
  x ∈ s -> exists s', set_remove x s = Some s' /\ s ≡ₚ x :: s'.
Proof.
  induction s as [|y s IH]; intros Hin.
  - apply elem_of_nil in Hin. contradiction.
  - simpl. destruct (decide (x = y)) as [-> | Hne].
    + exists s. split; reflexivity.
    + apply elem_of_cons in Hin as [-> | Hin]; [contradiction |].
      destruct (IH Hin) as (s' & E & Hperm). rewrite E. simpl.
      exists (y :: s'). split; [reflexivity |].
      rewrite Hperm. apply perm_swap.
Qed.

Section Greedy.

Variable self : RouteOptimizer.t.
Variable orders : list Order.t.

Local Abbreviation n := (length orders).

Lemma best_loop_ok (vehicle : Vehicle.t) (cw cv : R) (cl : Loc)
  (unassigned : list nat) :
  Forall (fun idx => (idx < n)%nat) unassigned ->
  exists best,
    for_each (RouteOptimizer.best_body orders vehicle cw cv cl)
      (None, PosInf) unassigned = Some best
    /\ forall b, best.1 = Some b -> b ∈ unassigned.
Proof.
  intros Hlt.
  apply (for_each_invariant _
           (fun done best => forall b, best.1 = Some b -> b ∈ done)).
  - intros b. discriminate.
  - intros done x rest best Hsplit Hbest.
    assert (Hx : (x < n)%nat).
    { rewrite Forall_forall in Hlt. apply Hlt. rewrite Hsplit.
      apply elem_of_app. right. apply elem_of_cons. left. reflexivity. }
    destruct (lookup_lt_is_Some_2 orders x Hx) as [order Horder].
    unfold RouteOptimizer.best_body. rewrite Horder. simpl.
    assert (Hkeep : forall b, best.1 = Some b -> b ∈ done ++ [x]).
    { intros b Hb. apply elem_of_app. left. apply Hbest. exact Hb. }
    destruct (_ || _); [eauto |].
    destruct (lt_ext _ _); [| eauto].
    eexists. split; [reflexivity |].
    intros b [= <-]. apply elem_of_app. right.
    apply elem_of_cons. left. reflexivity.
Qed.

Lemma assign_loop_ok (vehicle : Vehicle.t) (fuel : nat) :
  forall st : RouteOptimizer.assign_state,
    (length (RouteOptimizer.unassigned st) < fuel)%nat ->
    Forall (fun idx => (idx < n)%nat) (RouteOptimizer.unassigned st) ->
    exists st',
      RouteOptimizer.assign_loop fuel orders vehicle st = Some st'
      /\ RouteOptimizer.route_orders st' ++ RouteOptimizer.unassigned st'
         ≡ₚ RouteOptimizer.route_orders st ++ RouteOptimizer.unassigned st
      /\ (length (RouteOptimizer.unassigned st')
          <= length (RouteOptimizer.unassigned st))%nat.
Proof.
  induction fuel as [|fuel IH]; intros st Hfuel Hlt; [lia |].
  cbn [RouteOptimizer.assign_loop].
  destruct (RouteOptimizer.unassigned st) as [|u0 us] eqn:Hun.
  { exists st. rewrite Hun. auto. }
  rewrite <- Hun in *.
  destruct (best_loop_ok vehicle (RouteOptimizer.current_weight st)
              (RouteOptimizer.current_volume st)
              (RouteOptimizer.current_location st)
              (RouteOptimizer.unassigned st) Hlt) as (best & E & Hbest).
  rewrite E. simpl.
  destruct (best.1) as [b|] eqn:Hb; [| exists st; auto].
  specialize (Hbest b eq_refl).
  assert (Hbn : (b < n)%nat).
  { rewrite Forall_forall in Hlt. apply Hlt. exact Hbest. }
  destruct (lookup_lt_is_Some_2 orders b Hbn) as [order Horder].
  rewrite Horder. simpl.
  destruct (set_remove_perm b _ Hbest) as (unassigned' & Erem & Hperm).
  rewrite Erem. simpl.
  pose proof (Permutation_length Hperm) as Hlen. simpl in Hlen.
  destruct (IH {| RouteOptimizer.route_orders :=
                    RouteOptimizer.route_orders st ++ [b];
                  RouteOptimizer.current_weight :=
                    RouteOptimizer.current_weight st + Order.weight_kg order;
                  RouteOptimizer.current_volume :=
                    RouteOptimizer.current_volume st + Order.volume_m3 order;
                  RouteOptimizer.current_location :=
                    Order.delivery_location order;
                  RouteOptimizer.unassigned := unassigned' |})
    as (st' & E' & Hperm' & Hlen').
  - simpl. lia.
  - simpl. rewrite Hperm in Hlt. apply Forall_cons in Hlt. tauto.
  - exists st'. split; [exact E' |]. simpl in Hperm', Hlen'.
    split; [| lia].
    rewrite Hperm', Hperm, <- app_assoc. reflexivity.
Qed.

Lemma calculate_route_metrics_ok (order_indices : list nat)
  (vehicle : Vehicle.t) (distance_matrix : Matrix) :
  Forall (fun idx => (idx < n)%nat) order_indices ->
  exists route,
    RouteOptimizer._calculate_route_metrics self order_indices orders
      vehicle distance_matrix = Some route
    /\ Route.stops route = order_indices
    /\ Route.vehicle_id route = Vehicle.id vehicle.
Proof.
  intros Hlt. unfold RouteOptimizer._calculate_route_metrics.
  edestruct (for_each_invariant (RouteOptimizer.metrics_body self orders)
               (fun _ _ => True) order_indices) as (st & E & _).
  - exact I.
  - intros done x rest st Hsplit _.
    assert (Hx : (x < n)%nat).
    { rewrite Forall_forall in Hlt. apply Hlt. rewrite Hsplit.
      apply elem_of_app. right. apply elem_of_cons. left. reflexivity. }
    destruct (lookup_lt_is_Some_2 orders x Hx) as [order Horder].
    unfold RouteOptimizer.metrics_body. rewrite Horder. simpl. eauto.
  - rewrite E. simpl.
    destruct (Vehicle.end_location vehicle); eexists; eauto.
Qed.

Lemma vehicles_loop_ok (fuel : nat) (distance_matrix : Matrix)
  (vehicles : list Vehicle.t) :
  forall routes unassigned,
    (length unassigned < fuel)%nat ->
    solution_ok n routes unassigned ->
    exists routes' unassigned',
      RouteOptimizer.vehicles_loop fuel self orders distance_matrix
        vehicles routes unassigned = Some (routes', unassigned')
      /\ solution_ok n routes' unassigned'.
Proof.
  induction vehicles as [|vehicle vehicles IH];
    intros routes unassigned Hfuel Hok.
  { exists routes, unassigned. auto. }
  cbn [RouteOptimizer.vehicles_loop].
  destruct unassigned as [|u0 us] eqn:Hun.
  { exists routes, []. auto. }
  rewrite <- Hun in *. clear Hun u0 us.
  destruct Hok as (Hnd & Hlt & Hne).
  destruct (assign_loop_ok vehicle fuel
              {| RouteOptimizer.route_orders := [];
                 RouteOptimizer.current_weight := 0.0;
                 RouteOptimizer.current_volume := 0.0;
                 RouteOptimizer.current_location :=
                   Vehicle.start_location vehicle;
                 RouteOptimizer.unassigned := unassigned |})
    as (st & E & Hperm & Hlen).
  - exact Hfuel.
  - simpl. apply Forall_app in Hlt. tauto.
  - rewrite E. simpl. simpl in Hperm, Hlen.
    destruct (RouteOptimizer.route_orders st) as [|r0 rs] eqn:Hro.
    + simpl. apply IH; [lia |]. simpl in Hperm.
      unfold solution_ok. rewrite Hperm. auto.
    + rewrite <- Hro in *.
      assert (Hall : Forall (fun idx => (idx < n)%nat)
                       (all_stops routes ++ RouteOptimizer.route_orders st
                        ++ RouteOptimizer.unassigned st))
        by (rewrite Hperm; exact Hlt).
      destruct (calculate_route_metrics_ok (RouteOptimizer.route_orders st)
                  vehicle distance_matrix) as (route & Er & Hstops & _).
      { apply Forall_app in Hall as [_ Hall].
        apply Forall_app in Hall. tauto. }
      rewrite Er. simpl. apply IH; [lia |].
      unfold solution_ok, all_stops. rewrite bind_app. simpl.
      rewrite app_nil_r, Hstops, <- app_assoc.
      fold (all_stops routes). rewrite Hperm.
      split; [exact Hnd |]. split; [exact Hlt |].
      apply Forall_app. split; [exact Hne |].
      constructor; [| constructor]. rewrite Hstops, Hro. discriminate.
Qed.

End Greedy.

(** ** Salvage pass *)

Lemma all_stops_insert (routes : list Route.t) (k : nat)
  (route route' : Route.t) (idx : nat) :
  routes !! k = Some route ->
  Route.stops route' = Route.stops route ++ [idx] ->
  all_stops (<[k := route']> routes) ≡ₚ idx :: all_stops routes.
Proof.
  intros Hk Hstops.
  rewrite insert_take_drop by (apply lookup_lt_Some in Hk; exact Hk).
  rewrite <- (take_drop_middle routes k route Hk) at 3.
  unfold all_stops. rewrite !bind_app, !bind_cons, Hstops.
  rewrite <- !app_assoc. simpl.
  rewrite (Permutation_middle _ _ idx).
  apply Permutation_app_head.
  symmetry. apply Permutation_middle.
Qed.

Lemma salvage_scan_ok (order_idx : nat) (order : Order.t)
  (vehicles : list Vehicle.t) :
  forall (i : nat) (routes : list Route.t),
    Forall (fun route => Route.stops route <> []) routes ->
    exists routes',
      RouteOptimizer.salvage_scan order_idx order i vehicles routes
      = Some routes'
      /\ Forall (fun route => Route.stops route <> []) routes'
      /\ (all_stops routes' = all_stops routes
          \/ all_stops routes' ≡ₚ order_idx :: all_stops routes).
Proof.
  induction vehicles as [|vehicle vehicles IH]; intros i routes Hne.
  { exists routes. auto. }
  cbn [RouteOptimizer.salvage_scan].
  destruct (decide (i < length routes)%nat) as [Hi | Hi]; [| apply IH, Hne].
  destruct (lookup_lt_is_Some_2 routes i Hi) as [route Hroute].
  rewrite Hroute. simpl.
  destruct (_ && _); [| apply IH, Hne].
  eexists. split; [reflexivity |]. split.
  - apply Forall_insert; [exact Hne |]. simpl.
    intros Habs. apply app_eq_nil in Habs as [_ Habs]. discriminate.
  - right. apply (all_stops_insert routes i route); [exact Hroute |].
    reflexivity.
Qed.

Section Solution.

Variable orders : list Order.t.
Variable vehicles : list Vehicle.t.

Local Abbreviation n := (length orders).

Lemma salvage_body_ok (routes : list Route.t) (order_idx : nat)
  (rest : list nat) :
  solution_ok n routes (order_idx :: rest) ->
  exists routes',
    RouteOptimizer.salvage_body orders vehicles routes order_idx
    = Some routes'
    /\ solution_ok n routes' rest.
Proof.
  intros (Hnd & Hlt & Hne).
  assert (Hidx : (order_idx < n)%nat).
  { rewrite Forall_forall in Hlt. apply Hlt. apply elem_of_app. right.
    apply elem_of_cons. left. reflexivity. }
  destruct (lookup_lt_is_Some_2 orders order_idx Hidx) as [order Horder].
  unfold RouteOptimizer.salvage_body. rewrite Horder. simpl.
  destruct (salvage_scan_ok order_idx order vehicles 0 routes Hne)
    as (routes' & E & Hne' & Hstops).
  exists routes'. split; [exact E |].
  rewrite <- Permutation_middle in Hnd, Hlt.
  apply NoDup_cons in Hnd as [Hfresh Hnd].
  apply Forall_cons in Hlt as [_ Hlt'].
  unfold solution_ok. destruct Hstops as [-> | Hperm]; [auto |].
  rewrite Hperm. simpl. split; [| split; [| exact Hne']].
  - apply NoDup_cons. auto.
  - apply Forall_cons. auto.
Qed.

Lemma nearest_neighbor_ok (self : RouteOptimizer.t) (fuel : nat)
  (distance_matrix : Matrix) :
  (n < fuel)%nat ->
  exists routes,
    RouteOptimizer._nearest_neighbor_initial_solution fuel self orders
      vehicles distance_matrix = Some routes
    /\ solution_ok n routes [].
Proof.
  intros Hfuel. unfold RouteOptimizer._nearest_neighbor_initial_solution.
  destruct (vehicles_loop_ok self orders fuel distance_matrix vehicles []
              (range 0 n)) as (routes & unassigned & E & Hok).
  - rewrite range_length. lia.
  - unfold solution_ok, range. simpl. split; [apply NoDup_seq |].
    split; [| constructor].
    apply Forall_forall. intros idx Hin. apply elem_of_seq in Hin. lia.
  - rewrite E. simpl.
    destruct (for_each_invariant
                (RouteOptimizer.salvage_body orders vehicles)
                (fun done routes =>
                   solution_ok n routes (drop (length done) unassigned))
                unassigned routes) as (routes' & E' & Hok').
    + simpl. exact Hok.
    + intros done x rest routes0 Hsplit Hok0.
      rewrite Hsplit in Hok0 |- *.
      rewrite drop_app_length in Hok0.
      destruct (salvage_body_ok routes0 x rest Hok0) as (routes1 & E1 & Hok1).
      exists routes1. split; [exact E1 |].
      replace (done ++ x :: rest) with ((done ++ [x]) ++ rest)
        by (rewrite <- app_assoc; reflexivity).
      rewrite drop_app_length. exact Hok1.
    + exists routes'. split; [exact E' |].
      rewrite drop_all in Hok'. exact Hok'.
Qed.

Lemma compute_distance_matrix_total (dm : DistanceMatrix.t)
  (locations : list Loc) :
  exists matrix dm',
    DistanceMatrix.compute_distance_matrix dm locations
    = Some (matrix, dm').
Proof.
  destruct (build_matrix_entries locations) as (m & E & _).
  unfold DistanceMatrix.compute_distance_matrix. rewrite E. simpl.
  destruct (DistanceMatrix.use_cache dm); [| eauto].
  destruct (dict_get _ _); eauto.
Qed.

(** [optimize] returns, whatever the flag, the routes of the
    construction phase. *)
Lemma optimize_ok (self : RouteOptimizer.t) (fuel : nat)
  (improve_with_2opt : bool) :
  (n < fuel)%nat ->
  exists routes self',
    RouteOptimizer.optimize fuel self orders vehicles improve_with_2opt
    = Some (routes, self')
    /\ RouteOptimizer.optimize fuel self orders vehicles false
       = Some (routes, self')
    /\ solution_ok n routes [].
Proof.
  intros Hfuel. unfold RouteOptimizer.optimize.
  destruct orders as [|o os] eqn:Ho.
  { exists [], self. repeat split; try constructor. }
  rewrite <- Ho in *.
  destruct (compute_distance_matrix_total
              (RouteOptimizer.distance_matrix self)
              (RouteOptimizer._extract_locations orders vehicles))
    as (matrix & dm & Edm).
  rewrite Edm. simpl.
  set (self1 := {| RouteOptimizer.distance_matrix := dm;
                   RouteOptimizer.average_speed_kmh :=
                     RouteOptimizer.average_speed_kmh self |}).
  destruct (nearest_neighbor_ok self1 fuel matrix Hfuel)
    as (routes & E & Hok).
  rewrite E. simpl.
  exists routes, self1. split; [| auto].
  destruct improve_with_2opt; [| reflexivity].
  destruct fuel as [|fuel]; [lia |].
  rewrite improve_with_2opt_identity. reflexivity.
Qed.

End Solution.

(** ** Loads of a route *)

Lemma sum_R_snoc (l : list R) (x : R) : sum_R (l ++ [x]) = sum_R l + x.
Proof.
  unfold sum_R. induction l as [|y l IH]; simpl; [lra |].
  rewrite IH. lra.
Qed.

Lemma sum_loads_snoc (loads : list (R * R)) (w v : R) :
  sum_R (loads ++ [(w, v)]).*1 = sum_R loads.*1 + w
  /\ sum_R (loads ++ [(w, v)]).*2 = sum_R loads.*2 + v.
Proof.
  rewrite !fmap_app. simpl. rewrite !sum_R_snoc. split; reflexivity.
Qed.

Lemma route_loads_snoc (orders : list Order.t) (stops : list nat)
  (idx : nat) (order : Order.t) :
  orders !! idx = Some order ->
  route_loads orders (stops ++ [idx])
  = route_loads orders stops
    ++ [(Order.weight_kg order, Order.volume_m3 order)].
Proof.
  intros Horder. unfold route_loads. rewrite omap_app. simpl.
  rewrite Horder. reflexivity.
Qed.

(** [weight_used] and [volume_used] of a freshly built route are the sums
    over its stops. *)
Lemma calculate_route_metrics_loads (self : RouteOptimizer.t)
  (orders : list Order.t) (order_indices : list nat) (vehicle : Vehicle.t)
  (distance_matrix : Matrix) :
  Forall (fun idx => (idx < length orders)%nat) order_indices ->
  exists route,
    RouteOptimizer._calculate_route_metrics self order_indices orders
      vehicle distance_matrix = Some route
    /\ Route.stops route = order_indices
    /\ Route.vehicle_id route = Vehicle.id vehicle
    /\ Route.weight_used route
       = sum_R (route_loads orders order_indices).*1
    /\ Route.volume_used route
       = sum_R (route_loads orders order_indices).*2.
Proof.
  intros Hlt. unfold RouteOptimizer._calculate_route_metrics.
  edestruct (for_each_invariant (RouteOptimizer.metrics_body self orders)
               (fun done st =>
                  RouteOptimizer.m_total_weight st
                  = sum_R (route_loads orders done).*1
                  /\ RouteOptimizer.m_total_volume st
                     = sum_R (route_loads orders done).*2)
               order_indices
               {| RouteOptimizer.m_total_distance := 0.0;
                  RouteOptimizer.m_total_time := 0.0;
                  RouteOptimizer.m_total_weight := 0.0;
                  RouteOptimizer.m_total_volume := 0.0;
                  RouteOptimizer.m_current_location :=
                    Vehicle.start_location vehicle;
                  RouteOptimizer.m_current_time := 0.0 |})
    as (st & E & Hw & Hv).
  - unfold route_loads, sum_R. simpl. split; lra.
  - intros done x rest st Hsplit [Hw Hv].
    assert (Hx : (x < length orders)%nat).
    { rewrite Forall_forall in Hlt. apply Hlt. rewrite Hsplit.
      apply elem_of_app. right. apply elem_of_cons. left. reflexivity. }
    destruct (lookup_lt_is_Some_2 orders x Hx) as [order Horder].
    unfold RouteOptimizer.metrics_body. rewrite Horder. simpl.
    eexists. split; [reflexivity |]. simpl.
    rewrite (route_loads_snoc orders done x order Horder).
    destruct (sum_loads_snoc (route_loads orders done)
                (Order.weight_kg order) (Order.volume_m3 order)) as [-> ->].
    rewrite Hw, Hv. split; reflexivity.
  - rewrite E. simpl.
    destruct (Vehicle.end_location vehicle); eexists; simpl; eauto.
Qed.

(** ** A vehicle without a route shifts the salvage pass

    On the three vehicles and four orders above, no order fits the first
    vehicle, so it gets no route and [routes] holds the routes of the
    second and third vehicle at positions 0 and 1.  The salvage pass then
    tests the last order against [routes[1]], the third vehicle's route,
    with the capacity of [vehicles[1]], the second vehicle. *)

(** One turn of [while unassigned] that leaves by [break]. *)
Lemma assign_loop_break (fuel : nat) (orders : list Order.t)
  (vehicle : Vehicle.t) (ro : list nat) (cw cv : R) (cl : Loc)
  (u : nat) (us : list nat) (d : ExtFloat) :
  for_each (RouteOptimizer.best_body orders vehicle cw cv cl)
    (None, PosInf) (u :: us) = Some (None, d) ->
  RouteOptimizer.assign_loop (S fuel) orders vehicle
    (RouteOptimizer.mk_assign ro cw cv cl (u :: us))
  = Some (RouteOptimizer.mk_assign ro cw cv cl (u :: us)).
Proof.
  intros Hbest. cbn [RouteOptimizer.assign_loop RouteOptimizer.unassigned
                       RouteOptimizer.current_weight
                       RouteOptimizer.current_volume
                       RouteOptimizer.current_location].
  rewrite Hbest. reflexivity.
Qed.

(** One turn of [while unassigned] that appends an order. *)
Lemma assign_loop_take (fuel : nat) (orders : list Order.t)
  (vehicle : Vehicle.t) (ro : list nat) (cw cv : R) (cl : Loc)
  (u : nat) (us us' : list nat) (b : nat) (d : ExtFloat) (order : Order.t) :
  for_each (RouteOptimizer.best_body orders vehicle cw cv cl)
    (None, PosInf) (u :: us) = Some (Some b, d) ->
  orders !! b = Some order ->
  set_remove b (u :: us) = Some us' ->
  RouteOptimizer.assign_loop (S fuel) orders vehicle
    (RouteOptimizer.mk_assign ro cw cv cl (u :: us))
  = RouteOptimizer.assign_loop fuel orders vehicle
      (RouteOptimizer.mk_assign (ro ++ [b]) (cw + Order.weight_kg order)
         (cv + Order.volume_m3 order) (Order.delivery_location order) us').
Proof.
  intros Hbest Horder Hrem.
  cbn [RouteOptimizer.assign_loop RouteOptimizer.unassigned
         RouteOptimizer.current_weight RouteOptimizer.current_volume
         RouteOptimizer.current_location RouteOptimizer.route_orders].
  rewrite Hbest. cbn [mbind option_bind fst]. rewrite Horder.
  cbn [mbind option_bind]. rewrite Hrem. reflexivity.
Qed.

Lemma bug_orders_lookup (k : nat) :
  (k < 4)%nat ->
  exists name, bug_orders !! k = Some (bug_order name).
Proof.
  intros Hk. do 4 (destruct k as [|k]; [eexists; reflexivity |]). lia.
Qed.

(** All pickups are at the current location: once an order is the best,
    no later one is strictly nearer. *)
Lemma bug_best_keep (vehicle : Vehicle.t) (cw cv : R) (b : nat)
  (us : list nat) :
  Forall (fun idx => (idx < 4)%nat) us ->
  for_each (RouteOptimizer.best_body bug_orders vehicle cw cv (0, 0))
    (Some b, Finite 0) us = Some (Some b, Finite 0).
Proof.
  induction 1 as [|u us Hu _ IH]; [reflexivity |].
  cbn [for_each]. unfold RouteOptimizer.best_body at 1.
  destruct (bug_orders_lookup u Hu) as [name ->].
  cbn [mbind option_bind bug_order Order.weight_kg Order.volume_m3
         Order.pickup_location snd lt_ext].
  rewrite distance_between_same.
  rewrite (bool_decide_false (0 < 0)) by lra.
  destruct (_ || _); exact IH.
Qed.

Lemma bug_best_none (vehicle : Vehicle.t) (cw cv : R) (us : list nat)
  (best : option nat * ExtFloat) :
  cw + 20 > Vehicle.max_weight_kg vehicle ->
  Forall (fun idx => (idx < 4)%nat) us ->
  for_each (RouteOptimizer.best_body bug_orders vehicle cw cv (0, 0))
    best us = Some best.
Proof.
  intros Hfull. induction 1 as [|u us Hu _ IH]; [reflexivity |].
  cbn [for_each]. unfold RouteOptimizer.best_body at 1.
  destruct (bug_orders_lookup u Hu) as [name ->].
  cbn [mbind option_bind bug_order Order.weight_kg Order.volume_m3].
  rewrite (bool_decide_true (cw + 20 > _)) by exact Hfull.
  cbn [orb]. exact IH.
Qed.

Lemma bug_best_first (vehicle : Vehicle.t) (cw cv : R) (u : nat)
  (us : list nat) :
  cw + 20 <= Vehicle.max_weight_kg vehicle ->
  cv + 1 <= Vehicle.max_volume_m3 vehicle ->
  Forall (fun idx => (idx < 4)%nat) (u :: us) ->
  for_each (RouteOptimizer.best_body bug_orders vehicle cw cv (0, 0))
    (None, PosInf) (u :: us) = Some (Some u, Finite 0).
Proof.
  intros Hw Hv Hall. apply Forall_cons in Hall as [Hu Hus].
  cbn [for_each]. unfold RouteOptimizer.best_body at 1.
  destruct (bug_orders_lookup u Hu) as [name ->].
  cbn [mbind option_bind bug_order Order.weight_kg Order.volume_m3
         Order.pickup_location snd lt_ext].
  rewrite (bool_decide_false (cw + 20 > _)) by lra.
  rewrite (bool_decide_false (cv + 1 > _)) by lra.
  cbn [orb]. rewrite distance_between_same.
  apply bug_best_keep. exact Hus.
Qed.

Lemma bug_assign_v0 :
  RouteOptimizer.assign_loop 5 bug_orders (bug_vehicle "v0" 10)
    (RouteOptimizer.mk_assign [] 0.0 0.0 (0, 0) [0; 1; 2; 3]%nat)
  = Some (RouteOptimizer.mk_assign [] 0.0 0.0 (0, 0) [0; 1; 2; 3]%nat).
Proof.
  apply (assign_loop_break _ _ _ _ _ _ _ _ _ PosInf).
  apply bug_best_none; [simpl; lra | below_four].
Qed.

Lemma bug_assign_v1 :
  RouteOptimizer.assign_loop 5 bug_orders (bug_vehicle "v1" 50)
    (RouteOptimizer.mk_assign [] 0.0 0.0 (0, 0) [0; 1; 2; 3]%nat)
  = Some (RouteOptimizer.mk_assign [0; 1]%nat (0.0 + 20 + 20) (0.0 + 1 + 1)
            (0, 0) [2; 3]%nat).
Proof.
  rewrite (assign_loop_take _ _ _ _ _ _ _ _ _ [1; 2; 3]%nat 0%nat (Finite 0)
             (bug_order "o0"));
    [| apply bug_best_first; [simpl; lra | simpl; lra | below_four]
     | reflexivity | reflexivity].
  cbn [bug_order Order.weight_kg Order.volume_m3 Order.delivery_location app].
  rewrite (assign_loop_take _ _ _ _ _ _ _ _ _ [2; 3]%nat 1%nat (Finite 0)
             (bug_order "o1"));
    [| apply bug_best_first; [simpl; lra | simpl; lra | below_four]
     | reflexivity | reflexivity].
  cbn [bug_order Order.weight_kg Order.volume_m3 Order.delivery_location app].
  apply (assign_loop_break _ _ _ _ _ _ _ _ _ PosInf).
  apply bug_best_none; [simpl; lra | below_four].
Qed.

Lemma bug_assign_v2 :
  RouteOptimizer.assign_loop 5 bug_orders (bug_vehicle "v2" 20)
    (RouteOptimizer.mk_assign [] 0.0 0.0 (0, 0) [2; 3]%nat)
  = Some (RouteOptimizer.mk_assign [2]%nat (0.0 + 20) (0.0 + 1) (0, 0)
            [3]%nat).
Proof.
  rewrite (assign_loop_take _ _ _ _ _ _ _ _ _ [3]%nat 2%nat (Finite 0)
             (bug_order "o2"));
    [| apply bug_best_first; [simpl; lra | simpl; lra | below_four]
     | reflexivity | reflexivity].
  cbn [bug_order Order.weight_kg Order.volume_m3 Order.delivery_location app].
  apply (assign_loop_break _ _ _ _ _ _ _ _ _ PosInf).
  apply bug_best_none; [simpl; lra | below_four].
Qed.

Lemma bug_route_loads (stops : list nat) :
  Forall (fun idx => (idx < 4)%nat) stops ->
  route_loads bug_orders stops = (fun _ => (20, 1)) <$> stops.
Proof.
  induction 1 as [|idx stops Hidx _ IH]; [reflexivity |].
  unfold route_loads in *. cbn [omap list_omap].
  destruct (bug_orders_lookup idx Hidx) as [name ->].
  cbn [mbind option_bind bug_order Order.weight_kg Order.volume_m3].
  fold (@omap list _ nat (R * R)). rewrite IH. reflexivity.
Qed.

Lemma bug_nearest_neighbor (self : RouteOptimizer.t)
  (distance_matrix : Matrix) :
  exists route1 route2,
    RouteOptimizer._nearest_neighbor_initial_solution 5 self bug_orders
      bug_vehicles distance_matrix = Some [route1; route2]
    /\ Route.vehicle_id route1 = "v1"%string
    /\ Route.stops route1 = [0; 1]%nat
    /\ Route.vehicle_id route2 = "v2"%string
    /\ Route.stops route2 = [2; 3]%nat.
Proof.
  destruct (calculate_route_metrics_loads self bug_orders [0; 1]%nat
              (bug_vehicle "v1" 50) distance_matrix ltac:(below_four))
    as (r1 & E1 & Hs1 & Hid1 & Hw1 & Hv1).
  destruct (calculate_route_metrics_loads self bug_orders [2]%nat
              (bug_vehicle "v2" 20) distance_matrix ltac:(below_four))
    as (r2 & E2 & Hs2 & Hid2 & Hw2 & Hv2).
  rewrite bug_route_loads in Hw1, Hv1, Hw2, Hv2 by below_four.
  unfold sum_R in Hw1, Hv1, Hw2, Hv2.
  cbn [fmap list_fmap foldr fst snd] in Hw1, Hv1, Hw2, Hv2.
  unfold RouteOptimizer._nearest_neighbor_initial_solution.
  change (range 0 (length bug_orders)) with [0; 1; 2; 3]%nat.
  unfold bug_vehicles.
  cbn [RouteOptimizer.vehicles_loop].
  change (Vehicle.start_location (bug_vehicle "v0" 10)) with ((0, 0) : Loc).
  change (Vehicle.start_location (bug_vehicle "v1" 50)) with ((0, 0) : Loc).
  change (Vehicle.start_location (bug_vehicle "v2" 20)) with ((0, 0) : Loc).
  rewrite bug_assign_v0.
  cbn [mbind option_bind RouteOptimizer.route_orders
         RouteOptimizer.unassigned].
  rewrite bug_assign_v1.
  cbn [mbind option_bind RouteOptimizer.route_orders
         RouteOptimizer.unassigned].
  rewrite E1.
  cbn [mbind option_bind RouteOptimizer.route_orders
         RouteOptimizer.unassigned app].
  rewrite bug_assign_v2.
  cbn [mbind option_bind RouteOptimizer.route_orders
         RouteOptimizer.unassigned].
  rewrite E2.
  cbn [mbind option_bind app for_each].
  unfold RouteOptimizer.salvage_body.
  change (bug_orders !! 3%nat) with (Some (bug_order "o3")).
  cbn [mbind option_bind RouteOptimizer.salvage_scan length].
  rewrite (decide_True (P := (0 < 2)%nat)) by lia.
  change ([r1; r2] !! 0%nat) with (Some r1).
  cbn [mbind option_bind bug_order bug_vehicle Order.weight_kg
         Order.volume_m3 Vehicle.max_weight_kg Vehicle.max_volume_m3].
  rewrite (bool_decide_false (Route.weight_used r1 + 20 <= 10)) by lra.
  cbn [andb].
  rewrite (decide_True (P := (1 < 2)%nat)) by lia.
  change ([r1; r2] !! 1%nat) with (Some r2).
  cbn [mbind option_bind].
  rewrite (bool_decide_true (Route.weight_used r2 + 20 <= 50)) by lra.
  rewrite (bool_decide_true (Route.volume_used r2 + 1 <= 10)) by lra.
  cbn [andb].
  eexists r1, _. split; [reflexivity |].
  cbn [Route.vehicle_id Route.stops]. rewrite Hs1, Hid1, Hs2, Hid2.
  repeat split; reflexivity.
Qed.

(** The routes [optimize] returns are those of the construction phase, run
    with the optimizer state that [optimize] returns. *)
Lemma optimize_routes (fuel : nat) (self self' : RouteOptimizer.t)
  (order : Order.t) (orders : list Order.t) (vehicles : list Vehicle.t)
  (improve_with_2opt : bool) (routes : list Route.t) :
  RouteOptimizer.optimize (S fuel) self (order :: orders) vehicles
    improve_with_2opt = Some (routes, self') ->
  exists distance_matrix,
    RouteOptimizer._nearest_neighbor_initial_solution (S fuel) self'
      (order :: orders) vehicles distance_matrix = Some routes.
Proof.
  unfold RouteOptimizer.optimize.
  destruct (DistanceMatrix.compute_distance_matrix _ _) as [[m dm]|];
    [| discriminate].
  cbn [mbind option_bind].
  destruct (RouteOptimizer._nearest_neighbor_initial_solution _ _ _ _ _)
    as [routes0|] eqn:Enn; [| discriminate].
  cbn [mbind option_bind].
  destruct improve_with_2opt.
  - rewrite improve_with_2opt_identity. cbn [mbind option_bind].
    intros [= <- <-]. exists m. exact Enn.
  - cbn [mbind option_bind]. intros [= <- <-]. exists m. exact Enn.
Qed.

(** C1, at the failing input.  [optimize] returns the route [2; 3] for
    vehicle v2, whose maximum weight is 20 kg, while the two orders weigh
    40 kg together: the second stop was added by the salvage pass. *)
Theorem optimize_salvage_overloads_vehicle (improve_with_2opt : bool) :
  exists routes self' route,
    RouteOptimizer.optimize 5 (RouteOptimizer.init false) bug_orders
      bug_vehicles improve_with_2opt = Some (routes, self')
    /\ route ∈ routes
    /\ Route.vehicle_id route = Vehicle.id (bug_vehicle "v2" 20)
    /\ bug_vehicle "v2" 20 ∈ bug_vehicles
    /\ Route.stops route = [2; 3]%nat
    /\ cumulative_weight (route_loads bug_orders (Route.stops route)) 2
       = 40
    /\ ~ within_capacity bug_orders (bug_vehicle "v2" 20) route.
Proof.
  destruct (optimize_ok bug_orders bug_vehicles (RouteOptimizer.init false)
              5 improve_with_2opt) as (routes & self' & E & _ & _).
  { unfold bug_orders. cbn [length]. lia. }
  exists routes, self'.
  destruct (optimize_routes 4 _ _ _ _ _ _ _ E) as (m & Enn).
  destruct (bug_nearest_neighbor self' m)
    as (r1 & r2 & Enn' & _ & _ & Hid2 & Hs2).
  fold bug_orders in Enn. rewrite Enn' in Enn. injection Enn as <-.
  assert (Hsum : cumulative_weight (route_loads bug_orders (Route.stops r2)) 2
                 = 40).
  { rewrite Hs2, bug_route_loads by below_four.
    unfold cumulative_weight, sum_R.
    cbn [take fmap list_fmap foldr fst]. lra. }
  exists r2. split; [exact E |].
  split; [apply elem_of_cons; right; apply elem_of_cons; left; reflexivity |].
  split; [exact Hid2 |].
  split; [unfold bug_vehicles; apply elem_of_cons; right; apply elem_of_cons;
          right; apply elem_of_cons; left; reflexivity |].
  split; [exact Hs2 |]. split; [exact Hsum |].
  intros Hcap. destruct (Hcap 2%nat) as [Hw _].
  { rewrite Hs2, bug_route_loads by below_four.
    cbn [fmap list_fmap length]. lia. }
  rewrite Hsum in Hw. cbn [bug_vehicle Vehicle.max_weight_kg] in Hw. lra.
Qed.

(** ** The distance used by 2-opt *)

(** Along the equator the haversine distance is the radius times the
    difference of longitude. *)
Lemma haversine_equator (lng : R) :
  0 <= lng <= 180 ->
  DistanceMatrix.haversine 0 0 0 lng = 6371 * DistanceMatrix.radians lng.
Proof.
  intros Hlng. pose proof PI_RGT_0 as Hpi.
  unfold DistanceMatrix.haversine, DistanceMatrix.EARTH_RADIUS_KM.
  assert (Hr0 : DistanceMatrix.radians 0 = 0)
    by (unfold DistanceMatrix.radians; lra).
  rewrite Hr0.
  replace ((0 - 0) / 2) with 0 by lra.
  replace ((DistanceMatrix.radians lng - 0) / 2)
    with (DistanceMatrix.radians lng / 2) by lra.
  rewrite sin_0, cos_0.
  replace (0 ^ 2 + 1 * 1 * sin (DistanceMatrix.radians lng / 2) ^ 2)
    with (sin (DistanceMatrix.radians lng / 2) ^ 2) by (simpl; lra).
  assert (Hhalf : 0 <= DistanceMatrix.radians lng / 2 <= PI / 2).
  { unfold DistanceMatrix.radians. split; nra. }
  rewrite sqrt_pow2 by (apply sin_ge_0; lra).
  rewrite asin_sin by lra. lra.
Qed.

(** C2, at a failing input.  Three orders picked up and delivered at one
    place, visited as [0; 1; 2]: the true distance is 0, while
    [_calculate_route_distance] returns the distance from (0, 0) to
    (0, 0.001) plus that to (0, 0.002), which is positive.  The function
    measures placeholder points derived from the positions in the list, not
    the coordinates of the orders. *)
Theorem calculate_route_distance_placeholder :
  true_route_distance bug_orders [0; 1; 2]%nat = 0
  /\ RouteOptimizer._calculate_route_distance [0; 1; 2]%nat
     = 6371 * (0.003 * (PI / 180))
  /\ RouteOptimizer._calculate_route_distance [0; 1; 2]%nat
     <> true_route_distance bug_orders [0; 1; 2]%nat.
Proof.
  assert (Htrue : true_route_distance bug_orders [0; 1; 2]%nat = 0).
  { unfold true_route_distance, route_points, bug_orders, bug_order.
    cbn [mbind list_bind lookup list_lookup app Order.pickup_location
           Order.delivery_location path_length].
    rewrite !distance_between_same. lra. }
  assert (Hcode : RouteOptimizer._calculate_route_distance [0; 1; 2]%nat
                  = 6371 * (0.003 * (PI / 180))).
  { unfold RouteOptimizer._calculate_route_distance, range.
    cbn [length Nat.sub seq foldl INR].
    unfold DistanceMatrix.distance_between. cbn [fst snd].
    replace 0.0 with 0 by lra.
    rewrite !haversine_equator by lra.
    unfold DistanceMatrix.radians. lra. }
  split; [exact Htrue |]. split; [exact Hcode |].
  rewrite Hcode, Htrue. pose proof PI_RGT_0. lra.
Qed.

(** The same on a single stop across half the equator: the function
    returns 0, the true distance is 6371 * PI. *)
Lemma calculate_route_distance_single_stop :
  RouteOptimizer._calculate_route_distance [0%nat] = 0
  /\ true_route_distance [far_order] [0%nat] = 6371 * PI.
Proof.
  split.
  - unfold RouteOptimizer._calculate_route_distance, range.
    cbn [length Nat.sub seq foldl INR].
    replace (0 * 0.001) with 0.0 by lra.
    rewrite distance_between_same. lra.
  - unfold true_route_distance, route_points, far_order.
    cbn [mbind list_bind lookup list_lookup app Order.pickup_location
           Order.delivery_location path_length].
    unfold DistanceMatrix.distance_between. cbn [fst snd].
    rewrite haversine_half_equator. lra.
Qed.

(** ** The claims on [optimize] *)

Lemma all_stops_one_route (routes : list Route.t) :
  NoDup (all_stops routes) ->
  forall i j route_i route_j idx,
    routes !! i = Some route_i -> routes !! j = Some route_j ->
    idx ∈ Route.stops route_i -> idx ∈ Route.stops route_j ->
    i = j.
Proof.
  induction routes as [|route routes IH]; intros Hnd i j ri rj idx Hi Hj Ii Ij.
  { rewrite lookup_nil in Hi. discriminate. }
  unfold all_stops in Hnd. rewrite bind_cons in Hnd.
  apply NoDup_app in Hnd as (_ & Hdisj & Hnd).
  assert (Hrest : forall k route_k,
             routes !! k = Some route_k -> idx ∈ Route.stops route_k ->
             idx ∈ routes ≫= Route.stops).
  { intros k rk Hk Ik. apply list_elem_of_bind. exists rk.
    split; [exact Ik |]. apply list_elem_of_lookup. eauto. }
  destruct i as [|i], j as [|j]; simpl in Hi, Hj.
  - reflexivity.
  - injection Hi as <-. exfalso. apply (Hdisj idx Ii). eauto.
  - injection Hj as <-. exfalso. apply (Hdisj idx Ij). eauto.
  - f_equal. apply (IH Hnd i j ri rj idx); assumption.
Qed.

(** C3. [optimize] returns, and no order index is in the stops of two of the
    returned routes; nor is it twice in the stops of one. *)
Theorem optimize_order_in_one_route (fuel : nat) (self : RouteOptimizer.t)
  (orders : list Order.t) (vehicles : list Vehicle.t)
  (improve_with_2opt : bool) :
  (length orders < fuel)%nat ->
  exists routes self',
    RouteOptimizer.optimize fuel self orders vehicles improve_with_2opt
    = Some (routes, self')
    /\ (forall i j route_i route_j idx,
          routes !! i = Some route_i -> routes !! j = Some route_j ->
          idx ∈ Route.stops route_i -> idx ∈ Route.stops route_j ->
          i = j)
    /\ NoDup (all_stops routes).
Proof.
  intros Hfuel.
  destruct (optimize_ok orders vehicles self fuel improve_with_2opt Hfuel)
    as (routes & self' & E & _ & Hnd & _).
  rewrite app_nil_r in Hnd.
  exists routes, self'. split; [exact E |].
  split; [apply all_stops_one_route; exact Hnd | exact Hnd].
Qed.

(** C10. [optimize] returns, every returned route has at least one stop and
    every stop is the index of an input order. *)
Theorem optimize_stops_valid (fuel : nat) (self : RouteOptimizer.t)
  (orders : list Order.t) (vehicles : list Vehicle.t)
  (improve_with_2opt : bool) :
  (length orders < fuel)%nat ->
  exists routes self',
    RouteOptimizer.optimize fuel self orders vehicles improve_with_2opt
    = Some (routes, self')
    /\ forall route, route ∈ routes ->
         Route.stops route <> []
         /\ forall idx, idx ∈ Route.stops route ->
                        (0 <= idx < length orders)%nat.
Proof.
  intros Hfuel.
  destruct (optimize_ok orders vehicles self fuel improve_with_2opt Hfuel)
    as (routes & self' & E & _ & _ & Hlt & Hne).
  exists routes, self'. split; [exact E |].
  intros route Hin. rewrite Forall_forall in Hne. rewrite Forall_forall in Hlt.
  split; [apply Hne; exact Hin |].
  intros idx Hidx. split; [lia |]. apply Hlt.
  rewrite app_nil_r. apply list_elem_of_bind. eauto.
Qed.

(** C8. On the same orders and vehicles, the total true travel distance of
    the routes returned with 2-opt is at most that of the routes returned
    without it. *)
Theorem optimize_2opt_not_longer (fuel : nat) (self : RouteOptimizer.t)
  (orders : list Order.t) (vehicles : list Vehicle.t) :
  (length orders < fuel)%nat ->
  exists routes_2opt routes_plain self1 self2,
    RouteOptimizer.optimize fuel self orders vehicles true
    = Some (routes_2opt, self1)
    /\ RouteOptimizer.optimize fuel self orders vehicles false
       = Some (routes_plain, self2)
    /\ total_route_distance orders routes_2opt
       <= total_route_distance orders routes_plain.
Proof.
  intros Hfuel.
  destruct (optimize_ok orders vehicles self fuel true Hfuel)
    as (routes & self' & Eon & Eoff & _).
  exists routes, routes, self', self'. repeat split; try assumption.
  apply Rle_refl.
Qed.

(** C7. With no orders, [optimize] returns the empty list of routes and the
    optimizer, distance-matrix cache included, is as it was. *)
Theorem optimize_no_orders (fuel : nat) (self : RouteOptimizer.t)
  (vehicles : list Vehicle.t) (improve_with_2opt : bool) :
  RouteOptimizer.optimize fuel self [] vehicles improve_with_2opt
  = Some ([], self).
Proof. reflexivity. Qed.

(** With at least one order, by contrast, the distance matrix is built: a
    caching optimizer that starts with an empty cache ends with the matrix
    of the extracted locations in it. *)
Lemma optimize_caches_matrix (fuel : nat) (order : Order.t)
  (orders : list Order.t) (vehicles : list Vehicle.t)
  (improve_with_2opt : bool) :
  (length (order :: orders) < fuel)%nat ->
  exists routes self' matrix,
    RouteOptimizer.optimize fuel (RouteOptimizer.init true) (order :: orders)
      vehicles improve_with_2opt = Some (routes, self')
    /\ dict_get (RouteOptimizer._extract_locations (order :: orders) vehicles)
         (DistanceMatrix._cache (RouteOptimizer.distance_matrix self'))
       = Some matrix.
Proof.
  intros Hfuel. unfold RouteOptimizer.optimize.
  set (locations := RouteOptimizer._extract_locations (order :: orders)
                      vehicles).
  destruct (build_matrix_entries locations) as (m & Em & _).
  unfold DistanceMatrix.compute_distance_matrix.
  cbn [RouteOptimizer.init RouteOptimizer.distance_matrix
         DistanceMatrix.init DistanceMatrix.use_cache DistanceMatrix._cache
         dict_get].
  rewrite Em. cbn [mbind option_bind].
  match goal with
  | |- context [RouteOptimizer._nearest_neighbor_initial_solution
                  fuel ?self1 _ _ _] =>
      destruct (nearest_neighbor_ok (order :: orders) vehicles self1 fuel m
                  Hfuel) as (routes & Enn & _)
  end.
  rewrite Enn. cbn [mbind option_bind].
  assert (E2 : (if improve_with_2opt
                then RouteOptimizer._improve_with_2opt fuel routes m
                else Some routes) = Some routes).
  { destruct improve_with_2opt; [| reflexivity].
    destruct fuel as [|fuel]; [lia |]. apply improve_with_2opt_identity. }
  rewrite E2. cbn [mbind option_bind].
  eexists routes, _, m. split; [reflexivity |].
  cbn [RouteOptimizer.distance_matrix DistanceMatrix._cache].
  rewrite dict_get_set. apply decide_True. reflexivity.
Qed.

(** ** The construction phase alone keeps every route within capacity *)

Lemma best_loop_fits (orders : list Order.t) (vehicle : Vehicle.t)
  (cw cv : R) (cl : Loc) (unassigned : list nat) :
  forall best best',
    for_each (RouteOptimizer.best_body orders vehicle cw cv cl) best
      unassigned = Some best' ->
    (forall b, best.1 = Some b ->
       exists order, orders !! b = Some order
         /\ cw + Order.weight_kg order <= Vehicle.max_weight_kg vehicle
         /\ cv + Order.volume_m3 order <= Vehicle.max_volume_m3 vehicle) ->
    forall b, best'.1 = Some b ->
      exists order, orders !! b = Some order
        /\ cw + Order.weight_kg order <= Vehicle.max_weight_kg vehicle
        /\ cv + Order.volume_m3 order <= Vehicle.max_volume_m3 vehicle.
Proof.
  induction unassigned as [|u us IH]; intros best best'.
  { simpl. intros [= <-] Hbest. exact Hbest. }
  cbn [for_each]. unfold RouteOptimizer.best_body at 1.
  destruct (orders !! u) as [order|] eqn:Horder; [| discriminate].
  cbn [mbind option_bind].
  destruct (bool_decide _ || bool_decide _) eqn:Hfit.
  { intros E Hbest. exact (IH _ _ E Hbest). }
  apply orb_false_elim in Hfit as [Hw Hv].
  apply bool_decide_eq_false in Hw, Hv.
  destruct (lt_ext _ _); intros E Hbest; [| exact (IH _ _ E Hbest)].
  apply (IH _ _ E). cbn [fst]. intros b [= <-]. exists order.
  split; [exact Horder |]. split; lra.
Qed.

Lemma loads_ok_snoc (orders : list Order.t) (vehicle : Vehicle.t)
  (stops : list nat) (weight volume : R) (idx : nat) (order : Order.t) :
  orders !! idx = Some order ->
  weight + Order.weight_kg order <= Vehicle.max_weight_kg vehicle ->
  volume + Order.volume_m3 order <= Vehicle.max_volume_m3 vehicle ->
  loads_ok orders vehicle stops weight volume ->
  loads_ok orders vehicle (stops ++ [idx]) (weight + Order.weight_kg order)
    (volume + Order.volume_m3 order).
Proof.
  intros Horder Hw Hv (Ew & Ev & Hpre). unfold loads_ok.
  rewrite (route_loads_snoc orders stops idx order Horder).
  destruct (sum_loads_snoc (route_loads orders stops)
              (Order.weight_kg order) (Order.volume_m3 order)) as [Sw Sv].
  rewrite Sw, Sv, <- Ew, <- Ev. split; [reflexivity |].
  split; [reflexivity |].
  intros k Hk. rewrite length_app in Hk. cbn [length] in Hk.
  unfold cumulative_weight, cumulative_volume in *.
  destruct (decide (k <= length (route_loads orders stops))%nat) as [Hle | Hgt].
  - rewrite take_app_le by exact Hle. apply Hpre. lia.
  - rewrite take_ge by (rewrite length_app; cbn [length]; lia).
    rewrite Sw, Sv, <- Ew, <- Ev. split; assumption.
Qed.

Lemma assign_loop_loads_ok (orders : list Order.t) (vehicle : Vehicle.t)
  (fuel : nat) :
  forall st st',
    RouteOptimizer.assign_loop fuel orders vehicle st = Some st' ->
    loads_ok orders vehicle (RouteOptimizer.route_orders st)
      (RouteOptimizer.current_weight st) (RouteOptimizer.current_volume st) ->
    loads_ok orders vehicle (RouteOptimizer.route_orders st')
      (RouteOptimizer.current_weight st') (RouteOptimizer.current_volume st').
Proof.
  induction fuel as [|fuel IH]; intros st st'; [discriminate |].
  cbn [RouteOptimizer.assign_loop].
  destruct (RouteOptimizer.unassigned st) as [|u0 us] eqn:Hun.
  { intros [= <-] Hok. exact Hok. }
  destruct (for_each _ _ _) as [best|] eqn:Ebest; [| discriminate].
  cbn [mbind option_bind].
  destruct (best.1) as [b|] eqn:Hb; [| intros [= <-] Hok; exact Hok].
  destruct (best_loop_fits _ _ _ _ _ _ _ _ Ebest
              ltac:(intros ?; discriminate) b Hb)
    as (order & Horder & Hw & Hv).
  rewrite Horder. cbn [mbind option_bind].
  destruct (set_remove b (u0 :: us)) as [unassigned'|]; [| discriminate].
  cbn [mbind option_bind]. intros E Hok.
  apply (IH _ _ E). cbn [RouteOptimizer.route_orders
                           RouteOptimizer.current_weight
                           RouteOptimizer.current_volume].
  apply loads_ok_snoc; assumption.
Qed.

Lemma calculate_route_metrics_inv (self : RouteOptimizer.t)
  (order_indices : list nat) (orders : list Order.t) (vehicle : Vehicle.t)
  (distance_matrix : Matrix) (route : Route.t) :
  RouteOptimizer._calculate_route_metrics self order_indices orders vehicle
    distance_matrix = Some route ->
  Route.stops route = order_indices
  /\ Route.vehicle_id route = Vehicle.id vehicle.
Proof.
  unfold RouteOptimizer._calculate_route_metrics.
  destruct (for_each _ _ order_indices) as [ms|]; [| discriminate].
  cbn [mbind option_bind].
  destruct (Vehicle.end_location vehicle); intros [= <-]; split; reflexivity.
Qed.

Lemma vehicles_loop_capacity (self : RouteOptimizer.t)
  (orders : list Order.t) (all_vehicles : list Vehicle.t) (fuel : nat)
  (distance_matrix : Matrix) (vehicles : list Vehicle.t) :
  (forall vehicle, vehicle ∈ vehicles -> vehicle ∈ all_vehicles) ->
  forall routes unassigned routes' unassigned',
    RouteOptimizer.vehicles_loop fuel self orders distance_matrix vehicles
      routes unassigned = Some (routes', unassigned') ->
    Forall (owned_within_capacity orders all_vehicles) routes ->
    Forall (owned_within_capacity orders all_vehicles) routes'.
Proof.
  induction vehicles as [|vehicle vehicles IH];
    intros Hsub routes unassigned routes' unassigned'.
  { simpl. intros [= <- <-] Hok. exact Hok. }
  cbn [RouteOptimizer.vehicles_loop].
  destruct unassigned as [|u0 us]; [intros [= <- <-] Hok; exact Hok |].
  destruct (RouteOptimizer.assign_loop _ _ _ _) as [st|] eqn:Est;
    [| discriminate].
  cbn [mbind option_bind].
  apply assign_loop_loads_ok in Est.
  2:{ unfold loads_ok, route_loads, sum_R. simpl.
      split; [lra |]. split; [lra |]. intros k Hk. lia. }
  cbn [RouteOptimizer.route_orders] in Est.
  assert (Hsub' : forall v, v ∈ vehicles -> v ∈ all_vehicles).
  { intros v Hv. apply Hsub. apply elem_of_cons. right. exact Hv. }
  destruct (RouteOptimizer.route_orders st) as [|r0 rs] eqn:Hro.
  { cbn [mbind option_bind]. apply IH. exact Hsub'. }
  rewrite <- Hro in *.
  destruct (RouteOptimizer._calculate_route_metrics _ _ _ _ _) as [route|]
    eqn:Eroute; [| discriminate].
  apply calculate_route_metrics_inv in Eroute as [Hstops Hid].
  cbn [mbind option_bind]. intros E Hok. apply (IH Hsub' _ _ _ _ E).
  apply Forall_app. split; [exact Hok |].
  constructor; [| constructor].
  exists vehicle. split; [apply Hsub; apply elem_of_cons; left; reflexivity |].
  split; [symmetry; exact Hid |].
  unfold within_capacity. rewrite Hstops. apply Est.
Qed.

(** The routes of the construction phase, before the salvage pass, are
    each within the capacity of the vehicle they were built for. *)
Lemma construction_within_capacity (self : RouteOptimizer.t)
  (orders : list Order.t) (vehicles : list Vehicle.t) (fuel : nat)
  (distance_matrix : Matrix) :
  (length orders < fuel)%nat ->
  exists routes unassigned,
    RouteOptimizer.vehicles_loop fuel self orders distance_matrix vehicles
      [] (range 0 (length orders)) = Some (routes, unassigned)
    /\ Forall (owned_within_capacity orders vehicles) routes.
Proof.
  intros Hfuel.
  destruct (vehicles_loop_ok self orders fuel distance_matrix vehicles []
              (range 0 (length orders))) as (routes & unassigned & E & _).
  - rewrite range_length. lia.
  - unfold solution_ok, range. simpl. split; [apply NoDup_seq |].
    split; [| constructor].
    apply Forall_forall. intros idx Hin. apply elem_of_seq in Hin. lia.
  - exists routes, unassigned. split; [exact E |].
    apply (vehicles_loop_capacity self orders vehicles fuel distance_matrix
             vehicles ltac:(auto) _ _ _ _ E).
    constructor.
Qed.

(** ** Instances of the theorems with a premise *)

(** Two loads of 50 kg and 1 m3 in a vehicle of 100 kg and 2 m3. *)
Lemma capacity_validate_witness :
  VehicleCapacityConstraint.validate (VehicleCapacityConstraint.mk 100 2)
    [(50, 1); (50, 1)]%float = true.
Proof.
  apply (proj2 (proj2 (capacity_validate_iff_prefixes
                         (VehicleCapacityConstraint.mk 100 2))
                  [(50, 1); (50, 1)]%float)).
  - split; [reflexivity |]. split; [reflexivity |].
    intros k Hk. cbn [length] in Hk.
    assert (Hcases : k = 1%nat \/ k = 2%nat) by lia.
    destruct Hcases as [-> | ->]; split; reflexivity.
  - intros k Hk. cbn [length] in Hk.
    assert (Hcases : k = 1%nat \/ k = 2%nat) by lia.
    destruct Hcases as [-> | ->]; split; reflexivity.
Defined.


(** One order, one vehicle, fuel 2. *)
Lemma optimize_order_in_one_route_witness :
  (length [far_order] < 2)%nat
  /\ exists routes self',
       RouteOptimizer.optimize 2 (RouteOptimizer.init false) [far_order]
         [bug_vehicle "v1" 50] true = Some (routes, self')
       /\ (forall i j route_i route_j idx,
             routes !! i = Some route_i -> routes !! j = Some route_j ->
             idx ∈ Route.stops route_i -> idx ∈ Route.stops route_j ->
             i = j)
       /\ NoDup (all_stops routes).
Proof.
  split; [cbn [length]; lia |].
  apply (optimize_order_in_one_route 2 (RouteOptimizer.init false)
           [far_order] [bug_vehicle "v1" 50] true).
  cbn [length]. lia.
Defined.

Lemma optimize_stops_valid_witness :
  (length [far_order] < 2)%nat
  /\ exists routes self',
       RouteOptimizer.optimize 2 (RouteOptimizer.init false) [far_order]
         [bug_vehicle "v1" 50] true = Some (routes, self')
       /\ forall route, route ∈ routes ->
            Route.stops route <> []
            /\ forall idx, idx ∈ Route.stops route ->
                           (0 <= idx < length [far_order])%nat.
Proof.
  split; [cbn [length]; lia |].
  apply (optimize_stops_valid 2 (RouteOptimizer.init false)
           [far_order] [bug_vehicle "v1" 50] true).
  cbn [length]. lia.
Defined.

Lemma optimize_2opt_not_longer_witness :
  (length [far_order] < 2)%nat
  /\ exists routes_2opt routes_plain self1 self2,
       RouteOptimizer.optimize 2 (RouteOptimizer.init false) [far_order]
         [bug_vehicle "v1" 50] true = Some (routes_2opt, self1)
       /\ RouteOptimizer.optimize 2 (RouteOptimizer.init false) [far_order]
            [bug_vehicle "v1" 50] false = Some (routes_plain, self2)
       /\ total_route_distance [far_order] routes_2opt
          <= total_route_distance [far_order] routes_plain.
Proof.
  split; [cbn [length]; lia |].
  apply (optimize_2opt_not_longer 2 (RouteOptimizer.init false)
           [far_order] [bug_vehicle "v1" 50]).
  cbn [length]. lia.
Defined.

(** * Further properties *)

(** ** distance.py: haversine *)

Lemma haversine_unfold (lat1 lng1 lat2 lng2 : R) :
  DistanceMatrix.haversine lat1 lng1 lat2 lng2
  = 6371 * (2 * asin (sqrt (haversine_a lat1 lng1 lat2 lng2))).
Proof.
  unfold DistanceMatrix.haversine, haversine_a,
    DistanceMatrix.EARTH_RADIUS_KM. lra.
Qed.

Lemma haversine_swap (lat1 lng1 lat2 lng2 : R) :
  DistanceMatrix.haversine lat1 lng1 lat2 lng2
  = DistanceMatrix.haversine lat2 lng2 lat1 lng1.
Proof.
  rewrite !haversine_unfold. do 4 f_equal. unfold haversine_a.
  replace ((DistanceMatrix.radians lat2 - DistanceMatrix.radians lat1) / 2)
    with (- ((DistanceMatrix.radians lat1 - DistanceMatrix.radians lat2) / 2))
    by lra.
  replace ((DistanceMatrix.radians lng2 - DistanceMatrix.radians lng1) / 2)
    with (- ((DistanceMatrix.radians lng1 - DistanceMatrix.radians lng2) / 2))
    by lra.
  rewrite !sin_neg. ring.
Qed.

(** X1. The haversine distance is symmetric in its two points, and so is
    [distance_between]. *)
Theorem haversine_symmetric (lat1 lng1 lat2 lng2 : R) (loc1 loc2 : Loc) :
  DistanceMatrix.haversine lat1 lng1 lat2 lng2
  = DistanceMatrix.haversine lat2 lng2 lat1 lng1
  /\ DistanceMatrix.distance_between loc1 loc2
     = DistanceMatrix.distance_between loc2 loc1.
Proof.
  split; [apply haversine_swap |].
  unfold DistanceMatrix.distance_between. apply haversine_swap.
Qed.

Lemma sin_half_sqr (x : R) : sin (x / 2) ^ 2 = (1 - cos x) / 2.
Proof.
  replace x with (2 * (x / 2)) at 2 by lra.
  rewrite cos_2a_sin. simpl. lra.
Qed.

Lemma sin_half_sqr_bounds (x : R) : 0 <= sin (x / 2) ^ 2 <= 1.
Proof.
  rewrite sin_half_sqr. pose proof (COS_bound x) as [Hlo Hhi]. lra.
Qed.

(** The argument of [math.sqrt] is between 0 and 1 whatever the inputs, so
    [math.sqrt] and [math.asin] are applied inside their domains. *)
Lemma haversine_a_bounds (lat1 lng1 lat2 lng2 : R) :
  0 <= haversine_a lat1 lng1 lat2 lng2 <= 1.
Proof.
  unfold haversine_a.
  set (p1 := DistanceMatrix.radians lat1).
  set (p2 := DistanceMatrix.radians lat2).
  set (s := sin ((DistanceMatrix.radians lng2 - DistanceMatrix.radians lng1)
                 / 2) ^ 2).
  assert (Hs : 0 <= s <= 1) by apply sin_half_sqr_bounds.
  rewrite sin_half_sqr. rewrite cos_minus.
  pose proof (COS_bound (p2 + p1)) as [Hlo Hhi]. rewrite cos_plus in Hlo, Hhi.
  set (c1 := cos p1) in *. set (c2 := cos p2) in *.
  set (s1 := sin p1) in *. set (s2 := sin p2) in *.
  pose proof (COS_bound (p2 - p1)) as [Hlo' Hhi'].
  rewrite cos_minus in Hlo', Hhi'. fold c1 c2 s1 s2 in Hlo', Hhi'.
  destruct (Rle_dec 0 (c1 * c2)) as [Hc | Hc]; split; nra.
Qed.

Lemma asin_unit_bounds (y : R) : 0 <= y <= 1 -> 0 <= asin y <= PI / 2.
Proof.
  intros Hy. split; [| apply asin_bound].
  destruct (Rle_dec 0 (asin y)) as [Hpos | Hneg]; [exact Hpos |].
  exfalso. pose proof (asin_bound y) as [Hlo _]. pose proof PI_RGT_0.
  assert (Hsin : sin (asin y) < 0) by (apply sin_lt_0_var; lra).
  rewrite sin_asin in Hsin by lra. lra.
Qed.

Lemma haversine_bounds (lat1 lng1 lat2 lng2 : R) :
  0 <= DistanceMatrix.haversine lat1 lng1 lat2 lng2 <= 6371 * PI.
Proof.
  rewrite haversine_unfold.
  pose proof (haversine_a_bounds lat1 lng1 lat2 lng2) as Ha.
  assert (Hsqrt : 0 <= sqrt (haversine_a lat1 lng1 lat2 lng2) <= 1).
  { split; [apply sqrt_pos |].
    rewrite <- sqrt_1. apply sqrt_le_1; lra. }
  pose proof (asin_unit_bounds _ Hsqrt). lra.
Qed.

(** X3. The haversine distance from a point to itself is 0. *)
Theorem haversine_identical_points (lat lng : R) (loc : Loc) :
  DistanceMatrix.haversine lat lng lat lng = 0
  /\ DistanceMatrix.distance_between loc loc = 0.
Proof.
  split; [apply haversine_same | apply distance_between_same].
Qed.

(** ** distance.py: the matrix and its cache *)

Lemma mget_bounds (n : nat) (m : Matrix) (i j : nat) (d : R) :
  square n m -> mget m i j = Some d -> (i < n)%nat /\ (j < n)%nat.
Proof.
  intros [Hlen Hrows]. unfold mget.
  destruct (m !! i) as [row|] eqn:Hrow; [| discriminate]. simpl.
  intros Hj. apply lookup_lt_Some in Hj.
  rewrite (Hrows i row Hrow) in Hj. apply lookup_lt_Some in Hrow. lia.
Qed.

Lemma build_matrix_lookup (locations : list Loc) :
  exists m,
    DistanceMatrix.build_matrix locations = Some m
    /\ square (length locations) m
    /\ forall i j loc_i loc_j,
         locations !! i = Some loc_i -> locations !! j = Some loc_j ->
         mget m i j = Some (DistanceMatrix.distance_between loc_i loc_j).
Proof.
  destruct (build_matrix_progress locations) as (m & E & Hsq & Hm).
  exists m. split; [exact E |]. split; [exact Hsq |].
  intros i j [lat1 lng1] [lat2 lng2] Hi Hj.
  pose proof (lookup_lt_Some _ _ _ Hi) as Hin.
  pose proof (lookup_lt_Some _ _ _ Hj) as Hjn.
  rewrite Hm by assumption.
  f_equal. unfold entry, haversine_at, written,
    DistanceMatrix.distance_between. cbn [fst snd].
  repeat case_decide; rewrite ?Hi, ?Hj.
  - reflexivity.
  - apply haversine_swap.
  - assert (i = j) as -> by lia. rewrite Hi in Hj. injection Hj as <- <-.
    symmetry. apply haversine_same.
Qed.

(** X4. The matrix returned for [n] locations has [n] rows of [n] entries,
    and its entry at [(i, j)] is what [distance_between] returns for
    locations [i] and [j], for all [i] and [j] in range; outside that range a
    subscript raises. *)
Theorem compute_distance_matrix_agrees_with_distance_between
  (self : DistanceMatrix.t) (locations : list Loc) :
  cache_ok self ->
  exists matrix self',
    DistanceMatrix.compute_distance_matrix self locations
    = Some (matrix, self')
    /\ length matrix = length locations
    /\ (forall row, row ∈ matrix -> length row = length locations)
    /\ (forall i j loc_i loc_j,
          locations !! i = Some loc_i -> locations !! j = Some loc_j ->
          mget matrix i j
          = Some (DistanceMatrix.distance_between loc_i loc_j))
    /\ (forall i j,
          (length locations <= i)%nat \/ (length locations <= j)%nat ->
          mget matrix i j = None).
Proof.
  intros Hok.
  destruct (build_matrix_lookup locations) as (m' & Eb & Hsq & Hget).
  assert (E : exists self',
             DistanceMatrix.compute_distance_matrix self locations
             = Some (m', self')).
  { unfold DistanceMatrix.compute_distance_matrix.
    destruct (DistanceMatrix.use_cache self).
    - destruct (dict_get _ _) as [cached|] eqn:Hhit.
      + apply Hok in Hhit. rewrite Eb in Hhit. injection Hhit as ->. eauto.
      + rewrite Eb. simpl. eauto.
    - rewrite Eb. simpl. eauto. }
  destruct E as [self' E].
  exists m', self'. split; [exact E |].
  destruct Hsq as [Hlen Hrows]. split; [exact Hlen |].
  split; [| split; [exact Hget |]].
  - intros row Hin. apply list_elem_of_lookup in Hin as [i Hi]. eauto.
  - intros i j Hout. destruct (mget m' i j) as [d|] eqn:Hd; [| reflexivity].
    apply (mget_bounds (length locations)) in Hd; [lia |].
    split; assumption.
Qed.

Lemma compute_distance_matrix_agrees_witness :
  exists matrix self',
    DistanceMatrix.compute_distance_matrix (DistanceMatrix.init true)
      equator_points
    = Some (matrix, self')
    /\ length matrix = length equator_points
    /\ (forall row, row ∈ matrix -> length row = length equator_points)
    /\ (forall i j loc_i loc_j,
          equator_points !! i = Some loc_i ->
          equator_points !! j = Some loc_j ->
          mget matrix i j
          = Some (DistanceMatrix.distance_between loc_i loc_j))
    /\ (forall i j,
          (length equator_points <= i)%nat
          \/ (length equator_points <= j)%nat ->
          mget matrix i j = None).
Proof.
  apply (compute_distance_matrix_agrees_with_distance_between
           (DistanceMatrix.init true) equator_points).
  apply cache_ok_init.
Defined.

(** X5. Caching is transparent: an object whose cache holds only matrices
    it stored returns the matrix that a fresh object without a cache
    returns, and that object is left as it was. *)
Theorem compute_distance_matrix_cache_transparent
  (self : DistanceMatrix.t) (locations : list Loc) :
  cache_ok self ->
  exists matrix self',
    DistanceMatrix.compute_distance_matrix self locations
    = Some (matrix, self')
    /\ DistanceMatrix.compute_distance_matrix (DistanceMatrix.init false)
         locations
       = Some (matrix, DistanceMatrix.init false).
Proof.
  intros Hok.
  destruct (build_matrix_lookup locations) as (m & Eb & _).
  unfold DistanceMatrix.compute_distance_matrix at 2.
  cbn [DistanceMatrix.init DistanceMatrix.use_cache]. rewrite Eb.
  cbn [mbind option_bind].
  unfold DistanceMatrix.compute_distance_matrix.
  destruct (DistanceMatrix.use_cache self).
  - destruct (dict_get _ _) as [cached|] eqn:Hhit.
    + apply Hok in Hhit. rewrite Eb in Hhit. injection Hhit as ->. eauto.
    + rewrite Eb. simpl. eauto.
  - rewrite Eb. simpl. eauto.
Qed.

Lemma compute_distance_matrix_cache_transparent_witness :
  exists matrix self',
    DistanceMatrix.compute_distance_matrix (DistanceMatrix.init true)
      equator_points
    = Some (matrix, self')
    /\ DistanceMatrix.compute_distance_matrix (DistanceMatrix.init false)
         equator_points
       = Some (matrix, DistanceMatrix.init false).
Proof.
  apply (compute_distance_matrix_cache_transparent (DistanceMatrix.init true)
           equator_points).
  apply cache_ok_init.
Defined.

Lemma compute_distance_matrix_state
  (self self1 : DistanceMatrix.t) (locations : list Loc) (matrix : Matrix) :
  DistanceMatrix.compute_distance_matrix self locations
  = Some (matrix, self1) ->
  DistanceMatrix.use_cache self1 = DistanceMatrix.use_cache self
  /\ (DistanceMatrix.use_cache self = false -> self1 = self)
  /\ (DistanceMatrix.use_cache self = true ->
      dict_get locations (DistanceMatrix._cache self1) = Some matrix
      /\ DistanceMatrix.compute_distance_matrix self1 locations
         = Some (matrix, self1))
  /\ (forall key, key <> locations ->
        dict_get key (DistanceMatrix._cache self1)
        = dict_get key (DistanceMatrix._cache self)).
Proof.
  unfold DistanceMatrix.compute_distance_matrix.
  destruct (DistanceMatrix.use_cache self) eqn:Huse.
  - destruct (dict_get locations (DistanceMatrix._cache self)) as [cached|]
      eqn:Hhit.
    + intros [= <- <-]. rewrite Huse, Hhit. repeat split; try discriminate;
        auto.
    + destruct (DistanceMatrix.build_matrix locations) as [m|];
        [| discriminate].
      cbn [mbind option_bind]. intros [= <- <-].
      cbn [DistanceMatrix.use_cache DistanceMatrix._cache].
      rewrite dict_get_set, decide_True by reflexivity.
      repeat split; try discriminate; auto.
      intros key Hkey. rewrite dict_get_set, decide_False by exact Hkey.
      reflexivity.
  - destruct (DistanceMatrix.build_matrix locations) as [m|];
      [| discriminate].
    cbn [mbind option_bind]. intros [= <- <-].
    repeat split; try discriminate; auto.
Qed.

(** X6. What a call does to the object.  Without [use_cache] the object is
    unchanged.  With it, the matrix is afterwards found under the list of
    locations, a second call with that list returns the same matrix and
    changes nothing, and the entries under other keys are as before. *)
Theorem compute_distance_matrix_cache_discipline
  (self self1 : DistanceMatrix.t) (locations : list Loc) (matrix : Matrix) :
  DistanceMatrix.compute_distance_matrix self locations
  = Some (matrix, self1) ->
  DistanceMatrix.use_cache self1 = DistanceMatrix.use_cache self
  /\ (DistanceMatrix.use_cache self = false -> self1 = self)
  /\ (DistanceMatrix.use_cache self = true ->
      dict_get locations (DistanceMatrix._cache self1) = Some matrix
      /\ DistanceMatrix.compute_distance_matrix self1 locations
         = Some (matrix, self1))
  /\ (forall key, key <> locations ->
        dict_get key (DistanceMatrix._cache self1)
        = dict_get key (DistanceMatrix._cache self)).
Proof. apply compute_distance_matrix_state. Qed.

Lemma compute_distance_matrix_cache_discipline_witness :
  exists matrix self1,
    DistanceMatrix.compute_distance_matrix (DistanceMatrix.init true) []
    = Some (matrix, self1)
    /\ DistanceMatrix.use_cache self1 = true
    /\ dict_get [] (DistanceMatrix._cache self1) = Some matrix
    /\ DistanceMatrix.compute_distance_matrix self1 [] = Some (matrix, self1).
Proof.
  eexists _, _.
  assert (E : DistanceMatrix.compute_distance_matrix (DistanceMatrix.init true)
                []
              = Some ([], DistanceMatrix.mk true [([], [])]))
    by reflexivity.
  split; [exact E |].
  destruct (compute_distance_matrix_cache_discipline _ _ _ _ E)
    as (Huse & _ & Hhit & _).
  destruct (Hhit eq_refl) as [Hget Hagain].
  split; [exact Huse |]. split; [exact Hget | exact Hagain].
Defined.

(** ** distance.py: bounding_box_query *)

Lemma bounding_box_loop_spec (center : Loc) (lat_delta lng_delta : R)
  (locations : list Loc) :
  forall (i : nat) (result : list nat),
  exists found,
    DistanceMatrix.bounding_box_loop center lat_delta lng_delta i locations
      result = result ++ found
    /\ sublist found (seq i (length locations))
    /\ forall k, k ∈ found <->
         exists loc, (i <= k)%nat /\ locations !! (k - i)%nat = Some loc
                     /\ in_box center lat_delta lng_delta loc.
Proof.
  induction locations as [|[lat lng] locations IH]; intros i result.
  { exists []. simpl. rewrite app_nil_r. split; [reflexivity |].
    split; [constructor |]. intros k. split.
    - intros Hin. apply elem_of_nil in Hin. contradiction.
    - intros (loc & _ & Hloc & _). discriminate. }
  cbn [DistanceMatrix.bounding_box_loop length seq].
  assert (Hshift : forall k loc,
             (S i <= k)%nat ->
             ((lat, lng) :: locations) !! (k - i)%nat = Some loc
             <-> locations !! (k - S i)%nat = Some loc).
  { intros k loc Hk. replace (k - i)%nat with (S (k - S i)) by lia.
    reflexivity. }
  destruct (bool_decide (Rabs (lat - center.1) <= lat_delta)
            && bool_decide (Rabs (lng - center.2) <= lng_delta)) eqn:Hbox.
  - destruct (IH (S i) (result ++ [i])) as (found & E & Hsub & Hin).
    exists (i :: found). rewrite E, <- app_assoc.
    split; [reflexivity |]. split; [constructor; exact Hsub |].
    apply andb_true_iff in Hbox as [Hlat Hlng].
    apply bool_decide_eq_true in Hlat, Hlng.
    intros k. rewrite elem_of_cons, Hin. split.
    + intros [-> | (loc & Hk & Hloc & Hb)].
      * exists (lat, lng). replace (i - i)%nat with 0%nat by lia.
        split; [lia |]. split; [reflexivity |]. split; assumption.
      * exists loc. split; [lia |]. split; [| exact Hb].
        apply Hshift; assumption.
    + intros (loc & Hk & Hloc & Hb).
      destruct (decide (k = i)) as [-> | Hne]; [left; reflexivity |].
      right. exists loc. split; [lia |]. split; [| exact Hb].
      apply Hshift; [lia | exact Hloc].
  - destruct (IH (S i) result) as (found & E & Hsub & Hin).
    exists found. split; [exact E |]. split; [constructor; exact Hsub |].
    intros k. rewrite Hin. split.
    + intros (loc & Hk & Hloc & Hb). exists loc. split; [lia |].
      split; [| exact Hb]. apply Hshift; assumption.
    + intros (loc & Hk & Hloc & Hb).
      destruct (decide (k = i)) as [-> | Hne].
      * exfalso. replace (i - i)%nat with 0%nat in Hloc by lia.
        injection Hloc as <-. destruct Hb as [Hlat Hlng]. cbn [fst snd] in *.
        apply andb_false_iff in Hbox as [Hbox | Hbox];
          apply bool_decide_eq_false in Hbox; contradiction.
      * exists loc. split; [lia |]. split; [| exact Hb].
        apply Hshift; [lia | exact Hloc].
Qed.

Lemma bounding_box_query_spec (locations : list Loc) (center : Loc)
  (radius_km : R) (result : list nat) :
  DistanceMatrix.bounding_box_query locations center radius_km
  = Some result ->
  sublist result (seq 0 (length locations))
  /\ forall k, k ∈ result <->
       exists loc,
         locations !! k = Some loc
         /\ in_box center (radius_km / 111)
              (radius_km
               / (111 * cos (DistanceMatrix.radians center.1))) loc.
Proof.
  unfold DistanceMatrix.bounding_box_query.
  destruct (decide _) as [Hzero | Hnz]; [discriminate |].
  destruct (bounding_box_loop_spec center (radius_km / 111.0)
              (radius_km / (111.0 * cos (DistanceMatrix.radians center.1)))
              locations 0 []) as (found & E & Hsub & Hin).
  rewrite E. cbn [app]. intros [= <-]. split; [exact Hsub |].
  intros k. rewrite Hin. replace (k - 0)%nat with k by lia.
  replace 111.0 with 111 by lra.
  split.
  - intros (loc & _ & Hloc & Hb). eauto.
  - intros (loc & Hloc & Hb). exists loc. split; [lia |]. eauto.
Qed.



(** X8. For a centre strictly between the poles, a larger radius never
    loses a location: every position returned for [radius1] is returned
    for [radius2 >= radius1]. *)
Theorem bounding_box_query_monotone (locations : list Loc) (center : Loc)
  (radius1 radius2 : R) (result1 : list nat) :
  -90 < center.1 < 90 ->
  radius1 <= radius2 ->
  DistanceMatrix.bounding_box_query locations center radius1
  = Some result1 ->
  exists result2,
    DistanceMatrix.bounding_box_query locations center radius2
    = Some result2
    /\ forall k, k ∈ result1 -> k ∈ result2.
Proof.
  intros Hlat Hle E1.
  assert (Hcos : 0 < cos (DistanceMatrix.radians center.1)).
  { pose proof PI_RGT_0. unfold DistanceMatrix.radians.
    apply cos_gt_0; nra. }
  destruct (DistanceMatrix.bounding_box_query locations center radius2)
    as [result2|] eqn:E2.
  2:{ unfold DistanceMatrix.bounding_box_query in E2.
      rewrite decide_False in E2 by lra. discriminate. }
  exists result2. split; [reflexivity |].
  apply bounding_box_query_spec in E1 as [_ H1].
  apply bounding_box_query_spec in E2 as [_ H2].
  intros k Hk. apply H1 in Hk as (loc & Hloc & Hlatb & Hlngb).
  apply H2. exists loc. split; [exact Hloc |].
  set (c := cos (DistanceMatrix.radians center.1)) in *.
  assert (Hinv : 0 < / (111 * c)) by (apply Rinv_0_lt_compat; lra).
  unfold in_box, Rdiv in *. split; [lra |].
  apply (Rle_trans _ _ _ Hlngb).
  apply Rmult_le_compat_r; lra.
Qed.

Lemma bounding_box_query_monotone_witness :
  exists result2,
    DistanceMatrix.bounding_box_query equator_points (0, 0) 222
    = Some result2
    /\ forall k, k ∈ [0%nat] -> k ∈ result2.
Proof.
  apply (bounding_box_query_monotone equator_points (0, 0) 111 222 [0%nat]).
  - cbn [fst]. lra.
  - lra.
  - unfold DistanceMatrix.bounding_box_query, equator_points.
    assert (Hcos : cos (DistanceMatrix.radians (0, 0).1) = 1).
    { unfold DistanceMatrix.radians. cbn [fst].
      replace (0 * (PI / 180)) with 0 by lra. apply cos_0. }
    rewrite Hcos. rewrite decide_False by lra.
    cbn [DistanceMatrix.bounding_box_loop fst snd].
    rewrite (bool_decide_true (Rabs (0 - 0) <= _))
      by (rewrite Rminus_diag, Rabs_R0; lra).
    rewrite (bool_decide_true (Rabs (0 - 0) <= _))
      by (rewrite Rminus_diag, Rabs_R0; lra).
    rewrite (bool_decide_false (Rabs (180 - 0) <= _))
      by (rewrite Rabs_right by lra; lra).
    reflexivity.
Defined.

(** ** constraints.py: time windows *)

Lemma minute_of_day_range (instant : Z) :
  (0 <= minute_of_day instant < 24 * 60)%Z.
Proof.
  unfold minute_of_day, datetime_hour, datetime_minute.
  pose proof (Z.mod_pos_bound (instant / 3600) 24 ltac:(lia)).
  pose proof (Z.mod_pos_bound (instant / 60) 60 ltac:(lia)).
  lia.
Qed.

Lemma time_window_validate_spec (self : TimeWindowConstraint.t)
  (time_windows : list TimeWindow.t) (arrival_times : list Z)
  (start_time : Z) :
  TimeWindowConstraint.validate self time_windows arrival_times start_time
  = true
  <-> forall k tw arrival_min,
        time_windows !! k = Some tw ->
        arrival_times !! k = Some arrival_min ->
        (minute_of_day (TimeWindow.earliest tw)
         <= (start_time + arrival_min) mod (24 * 60)
         <= minute_of_day (TimeWindow.latest tw))%Z.
Proof.
  unfold TimeWindowConstraint.validate. clear self.
  revert arrival_times.
  induction time_windows as [|tw tws IH]; intros [|a arr];
    cbn [TimeWindowConstraint.validate_loop];
    try (split; [intros _ k tw' a' Htw Ha; try discriminate;
                 destruct k; discriminate | reflexivity]).
  fold (minute_of_day (TimeWindow.earliest tw)).
  fold (minute_of_day (TimeWindow.latest tw)).
  repeat case_bool_decide; cbn [orb].
  - split; [discriminate |]. intros Hall.
    specialize (Hall 0%nat tw a eq_refl eq_refl). lia.
  - split; [discriminate |]. intros Hall.
    specialize (Hall 0%nat tw a eq_refl eq_refl). lia.
  - split; [discriminate |]. intros Hall.
    specialize (Hall 0%nat tw a eq_refl eq_refl). lia.
  - rewrite IH. split.
    + intros Hall [|k] tw' a' Htw Ha.
      * injection Htw as <-. injection Ha as <-. lia.
      * apply (Hall k); assumption.
    + intros Hall k tw' a' Htw Ha. apply (Hall (S k)); assumption.
Qed.

(** X9. [TimeWindowConstraint.validate] returns true exactly when, for every
    position that both lists have, the arrival's minute of the day lies
    between the minutes of the day of the window's earliest and latest
    instants; what the longer list has beyond the shorter one is not
    looked at. *)
Theorem time_window_validate_iff (self : TimeWindowConstraint.t)
  (time_windows : list TimeWindow.t) (arrival_times : list Z)
  (start_time : Z) :
  TimeWindowConstraint.validate self time_windows arrival_times start_time
  = true
  <-> forall k tw arrival_min,
        time_windows !! k = Some tw ->
        arrival_times !! k = Some arrival_min ->
        (minute_of_day (TimeWindow.earliest tw)
         <= (start_time + arrival_min) mod (24 * 60)
         <= minute_of_day (TimeWindow.latest tw))%Z.
Proof. apply time_window_validate_spec. Qed.

(** X10. Only the minute of the day counts: moving the start of the route by
    whole days, forward or back, does not change the verdict. *)
Theorem time_window_validate_ignores_days (self : TimeWindowConstraint.t)
  (time_windows : list TimeWindow.t) (arrival_times : list Z)
  (start_time days : Z) :
  TimeWindowConstraint.validate self time_windows arrival_times
    (start_time + days * (24 * 60))
  = TimeWindowConstraint.validate self time_windows arrival_times start_time.
Proof.
  unfold TimeWindowConstraint.validate. clear self.
  revert arrival_times.
  induction time_windows as [|tw tws IH]; intros [|a arr];
    cbn [TimeWindowConstraint.validate_loop]; try reflexivity.
  replace (start_time + days * (24 * 60) + a)%Z
    with (start_time + a + days * (24 * 60))%Z by lia.
  rewrite Z.mod_add by lia. rewrite IH. reflexivity.
Qed.

(** X11. A window that runs over midnight, so that the minute of the day of
    its latest instant is before that of its earliest instant, is met by no
    arrival: with such a window at a position that has an arrival,
    [validate] returns false. *)
Theorem time_window_validate_over_midnight (self : TimeWindowConstraint.t)
  (time_windows : list TimeWindow.t) (arrival_times : list Z)
  (start_time : Z) (k : nat) (tw : TimeWindow.t) (arrival_min : Z) :
  time_windows !! k = Some tw ->
  arrival_times !! k = Some arrival_min ->
  (minute_of_day (TimeWindow.latest tw)
   < minute_of_day (TimeWindow.earliest tw))%Z ->
  TimeWindowConstraint.validate self time_windows arrival_times start_time
  = false.
Proof.
  intros Htw Ha Hover.
  destruct (TimeWindowConstraint.validate self time_windows arrival_times
              start_time) eqn:E; [| reflexivity].
  rewrite time_window_validate_spec in E.
  specialize (E k tw arrival_min Htw Ha). lia.
Qed.

(** A window from 23:00 to 01:00 of the next day, an arrival at 23:30. *)
Lemma time_window_validate_over_midnight_witness :
  TimeWindowConstraint.validate TimeWindowConstraint.default
    [TimeWindow.mk 82800 90000] [30%Z] 1380
  = false.
Proof.
  apply (time_window_validate_over_midnight TimeWindowConstraint.default
           [TimeWindow.mk 82800 90000] [30%Z] 1380 0
           (TimeWindow.mk 82800 90000) 30).
  - reflexivity.
  - reflexivity.
  - vm_compute. reflexivity.
Defined.

(** ** constraints.py: zones *)

Lemma zone_validate_spec (self : ZoneRestrictionConstraint.t)
  (zones : list string) :
  ZoneRestrictionConstraint.validate self zones = true
  <-> forall zone, zone ∈ zones ->
                   zone ∉ ZoneRestrictionConstraint.excluded_zones self.
Proof.
  induction zones as [|zone zones IH]; cbn [ZoneRestrictionConstraint.validate].
  - split; [| reflexivity]. intros _ zone Hin.
    apply elem_of_nil in Hin. contradiction.
  - case_bool_decide as Hex.
    + split; [discriminate |]. intros Hall. exfalso.
      apply (Hall zone); [apply elem_of_cons; left; reflexivity | exact Hex].
    + rewrite IH. split.
      * intros Hall z Hz. apply elem_of_cons in Hz as [-> | Hz]; auto.
      * intros Hall z Hz. apply Hall. apply elem_of_cons. right. exact Hz.
Qed.

(** X12. [ZoneRestrictionConstraint.validate] returns true exactly when no
    zone of the list is in the excluded set; so it is true for the empty
    list, and for two lists one after the other exactly when it is true for
    each. *)
Theorem zone_validate_iff (self : ZoneRestrictionConstraint.t)
  (zones zones' : list string) :
  (ZoneRestrictionConstraint.validate self zones = true
   <-> forall zone, zone ∈ zones ->
                    zone ∉ ZoneRestrictionConstraint.excluded_zones self)
  /\ ZoneRestrictionConstraint.validate self (zones ++ zones')
     = ZoneRestrictionConstraint.validate self zones
       && ZoneRestrictionConstraint.validate self zones'.
Proof.
  split; [apply zone_validate_spec |].
  induction zones as [|zone zones IH]; [reflexivity |].
  cbn [app ZoneRestrictionConstraint.validate].
  case_bool_decide; [reflexivity | exact IH].
Qed.

(** X13. Excluding more zones never turns a rejected list of zones into an
    accepted one: what [check_zones] accepts under a set of excluded zones
    it accepts under every subset of it, and under the empty set it accepts
    everything. *)
Theorem check_zones_antitone (zones : list string)
  (excluded excluded' : gset string) :
  (excluded' ⊆ excluded ->
   ConstraintChecker.check_zones zones excluded = true ->
   ConstraintChecker.check_zones zones excluded' = true)
  /\ ConstraintChecker.check_zones zones ∅ = true.
Proof.
  unfold ConstraintChecker.check_zones. split.
  - intros Hsub. rewrite !zone_validate_spec.
    cbn [ZoneRestrictionConstraint.excluded_zones].
    intros Hall zone Hin Hex. apply (Hall zone Hin). apply Hsub, Hex.
  - apply zone_validate_spec.
    cbn [ZoneRestrictionConstraint.excluded_zones].
    intros zone _ Hex. apply elem_of_empty in Hex. exact Hex.
Qed.

(** ** constraints.py: the default driver-hours rule *)

Lemma all_from_spec (test : Z -> bool) (n : nat) :
  forall lo z,
    all_from test lo n = true ->
    (lo <= z < lo + Z.of_nat n)%Z -> test z = true.
Proof.
  induction n as [|n IH]; intros lo z Hall Hz; [lia |].
  cbn [all_from] in Hall. apply andb_true_iff in Hall as [Hlo Hrest].
  destruct (decide (z = lo)) as [-> | Hne]; [exact Hlo |].
  apply (IH (lo + 1)%Z z Hrest). lia.
Qed.

(** The exact comparison is monotone in the integer. *)
Lemma int_lt_float_mono (n n' : Z) (x : float) :
  (n <= n')%Z -> int_lt_float n' x = true -> int_lt_float n x = true.
Proof.
  unfold int_lt_float. intros Hle.
  destruct (Prim2SF x) as [s|s| |s m e]; try (intros H; exact H).
  - rewrite !Z.ltb_lt. lia.
  - cbv zeta. destruct (Z.leb_spec 0 e) as [He | He]; rewrite !Z.ltb_lt.
    + lia.
    + assert (0 < 2 ^ (- e))%Z by (apply Z.pow_pos_nonneg; lia). nia.
Qed.

(** The three tests on every minute of a week, by evaluation. *)
Lemma week_hours_tests :
  all_from (hours_test_exact 10 600) 0 (Z.to_nat (week_minutes + 1)) = true
  /\ all_from (hours_test_exact 5 300) 0 (Z.to_nat (week_minutes + 1))
     = true
  /\ all_from break_bound_near 0 (Z.to_nat (week_minutes + 1)) = true.
Proof. repeat split; vm_compute; reflexivity. Qed.

Lemma hours_test_exact_spec (hours : float) (limit minutes : Z) :
  hours_test_exact hours limit minutes = true ->
  exists x,
    float_of_int minutes = Some x
    /\ float_gt (x / 60.0)%float hours = (limit <? minutes)%Z.
Proof.
  unfold hours_test_exact.
  destruct (float_of_int minutes) as [x|]; [| discriminate].
  intros H. exists x. split; [reflexivity |].
  apply Bool.eqb_prop. exact H.
Qed.

(** X14. With the default limits (a shift of 10 hours, a break of half an
    hour after 5 hours of driving) and for times between 0 and the minutes
    of a week, [check_driver_hours] returns, and it follows the rule on
    whole minutes up to one minute of rounding: an accepted route has a
    total of at most 600 minutes and, with more than 300 minutes of
    driving, a total of at least driving + 30; and a route of at most 600
    minutes is accepted if, with more than 300 minutes of driving, its
    total is at least driving + 31. *)
Theorem check_driver_hours_default_rule
  (total_time_minutes driving_time_minutes : Z) :
  (0 <= total_time_minutes <= week_minutes)%Z ->
  (0 <= driving_time_minutes <= week_minutes)%Z ->
  exists verdict,
    ConstraintChecker.check_driver_hours total_time_minutes
      driving_time_minutes = Some verdict
    /\ (verdict = true ->
        (total_time_minutes <= 600)%Z
        /\ ((300 < driving_time_minutes)%Z ->
            (driving_time_minutes + 30 <= total_time_minutes)%Z))
    /\ ((total_time_minutes <= 600)%Z ->
        ((300 < driving_time_minutes)%Z ->
         (driving_time_minutes + 31 <= total_time_minutes)%Z) ->
        verdict = true).
Proof.
  intros Htotal Hdriving.
  destruct week_hours_tests as (Hshift & Hbreak & Hbound).
  assert (Hweek : (0 <= week_minutes)%Z) by (unfold week_minutes; lia).
  apply (all_from_spec _ _ 0%Z total_time_minutes) in Hshift; [| lia].
  apply (all_from_spec _ _ 0%Z driving_time_minutes) in Hbreak; [| lia].
  apply (all_from_spec _ _ 0%Z driving_time_minutes) in Hbound; [| lia].
  apply hours_test_exact_spec in Hshift as (total & Etotal & Hshift).
  apply hours_test_exact_spec in Hbreak as (driving & Edriving & Hbreak).
  unfold break_bound_near in Hbound. rewrite Edriving in Hbound.
  apply andb_true_iff in Hbound as [Hlow Hhigh].
  apply negb_true_iff in Hhigh.
  unfold ConstraintChecker.check_driver_hours, DriverHoursConstraint.validate,
    DriverHoursConstraint.default.
  rewrite Etotal, Edriving.
  cbn [mbind option_bind DriverHoursConstraint.max_shift_hours
         DriverHoursConstraint.mandatory_break_hours
         DriverHoursConstraint.break_after_hours].
  rewrite Hshift, Hbreak.
  destruct (Z.ltb_spec 600 total_time_minutes) as [Hover | Hwithin].
  { exists false. split; [reflexivity |].
    split; [discriminate | intros Hle; lia]. }
  destruct (Z.ltb_spec 300 driving_time_minutes) as [Hlong | Hshort].
  2:{ exists true. split; [reflexivity |]. split; [| reflexivity].
      intros _. split; lia. }
  destruct (int_lt_float total_time_minutes _) eqn:Hlt.
  - exists false. split; [reflexivity |]. split; [discriminate |].
    intros _ Hrule. specialize (Hrule Hlong).
    rewrite (int_lt_float_mono _ _ _ Hrule Hlt) in Hhigh. discriminate.
  - exists true. split; [reflexivity |]. split; [| reflexivity].
    intros _. split; [lia |]. intros _.
    destruct (Z.le_gt_cases (driving_time_minutes + 30) total_time_minutes)
      as [Hge | Hbelow]; [exact Hge |].
    assert (Hle : (total_time_minutes <= driving_time_minutes + 29)%Z)
      by lia.
    rewrite (int_lt_float_mono _ _ _ Hle Hlow) in Hlt. discriminate.
Qed.

Lemma check_driver_hours_default_rule_witness :
  exists verdict,
    ConstraintChecker.check_driver_hours 540 480 = Some verdict
    /\ (verdict = true ->
        (540 <= 600)%Z /\ ((300 < 480)%Z -> (480 + 30 <= 540)%Z))
    /\ ((540 <= 600)%Z -> ((300 < 480)%Z -> (480 + 31 <= 540)%Z) ->
        verdict = true).
Proof.
  apply (check_driver_hours_default_rule 540 480);
    unfold week_minutes; lia.
Defined.

(** ** optimizer.py: location extraction *)

(** Rule for a [for_each] that is known to have returned. *)
Lemma for_each_returned {A S : Type} (f : S -> A -> option S)
  (I : list A -> S -> Prop) (l : list A) (s s' : S) :
  I [] s ->
  (forall done x s1 s2, I done s1 -> f s1 x = Some s2 -> I (done ++ [x]) s2) ->
  for_each f s l = Some s' ->
  I l s'.
Proof.
  revert I s. induction l as [|x l IH]; intros I s H0 Hstep.
  - simpl. intros [= <-]. exact H0.
  - simpl. destruct (f s x) as [s1|] eqn:Hf; [| discriminate].
    apply (IH (fun done => I (x :: done)) s1).
    + apply (Hstep [] x s s1 H0 Hf).
    + intros done y s2 s3 HI Hy. apply (Hstep (x :: done) y s2 s3 HI Hy).
Qed.

Lemma add_location_spec (locations : list Loc) (x : Loc) :
  (NoDup locations -> NoDup (RouteOptimizer.add_location locations x))
  /\ (forall loc, loc ∈ RouteOptimizer.add_location locations x
                  <-> loc ∈ locations \/ loc = x)
  /\ locations `prefix_of` RouteOptimizer.add_location locations x.
Proof.
  unfold RouteOptimizer.add_location.
  destruct (decide (x ∈ locations)) as [Hin | Hnin].
  - split; [auto |]. split; [| reflexivity].
    intros loc. split; [auto |]. intros [Hloc | ->]; assumption.
  - split; [| split].
    + intros Hnd. apply NoDup_app. split; [exact Hnd |].
      split; [| apply NoDup_singleton].
      intros loc Hloc Hx. apply list_elem_of_singleton in Hx as ->.
      contradiction.
    + intros loc. rewrite elem_of_app, list_elem_of_singleton. reflexivity.
    + apply prefix_app_r. reflexivity.
Qed.

Lemma extract_vehicles_spec (vehicles : list Vehicle.t) :
  forall locations,
    NoDup locations ->
    let result :=
      foldl (fun locations vehicle =>
               RouteOptimizer.add_location locations
                 (Vehicle.start_location vehicle))
            locations vehicles in
    NoDup result
    /\ (forall loc, loc ∈ result
                    <-> loc ∈ locations
                        \/ exists vehicle, vehicle ∈ vehicles
                             /\ Vehicle.start_location vehicle = loc)
    /\ locations `prefix_of` result.
Proof.
  induction vehicles as [|vehicle vehicles IH]; intros locations Hnd; simpl.
  - split; [exact Hnd |]. split; [| reflexivity].
    intros loc. split; [auto |]. intros [Hloc | (v & Hv & _)]; [exact Hloc |].
    apply elem_of_nil in Hv. contradiction.
  - destruct (add_location_spec locations (Vehicle.start_location vehicle))
      as (Hnd1 & Hin1 & Hpre1).
    destruct (IH _ (Hnd1 Hnd)) as (Hnd2 & Hin2 & Hpre2).
    split; [exact Hnd2 |]. split; [| etransitivity; eassumption].
    intros loc. rewrite Hin2, Hin1. split.
    + intros [[Hloc | ->] | (v & Hv & Hs)].
      * left. exact Hloc.
      * right. exists vehicle. split; [apply elem_of_cons; auto | reflexivity].
      * right. exists v. split; [apply elem_of_cons; auto | exact Hs].
    + intros [Hloc | (v & Hv & Hs)]; [auto |].
      apply elem_of_cons in Hv as [-> | Hv]; [auto |].
      right. exists v. auto.
Qed.

Lemma extract_orders_spec (orders : list Order.t) :
  forall locations,
    NoDup locations ->
    let result :=
      foldl (fun locations order =>
               RouteOptimizer.add_location
                 (RouteOptimizer.add_location locations
                    (Order.pickup_location order))
                 (Order.delivery_location order))
            locations orders in
    NoDup result
    /\ (forall loc, loc ∈ result
                    <-> loc ∈ locations
                        \/ exists order, order ∈ orders
                             /\ (Order.pickup_location order = loc
                                 \/ Order.delivery_location order = loc))
    /\ locations `prefix_of` result.
Proof.
  induction orders as [|order orders IH]; intros locations Hnd; simpl.
  - split; [exact Hnd |]. split; [| reflexivity].
    intros loc. split; [auto |]. intros [Hloc | (o & Ho & _)]; [exact Hloc |].
    apply elem_of_nil in Ho. contradiction.
  - destruct (add_location_spec locations (Order.pickup_location order))
      as (Hnd1 & Hin1 & Hpre1).
    destruct (add_location_spec
                (RouteOptimizer.add_location locations
                   (Order.pickup_location order))
                (Order.delivery_location order)) as (Hnd2 & Hin2 & Hpre2).
    destruct (IH _ (Hnd2 (Hnd1 Hnd))) as (Hnd3 & Hin3 & Hpre3).
    split; [exact Hnd3 |].
    split; [| etransitivity; [| exact Hpre3]; etransitivity; eassumption].
    intros loc. rewrite Hin3, Hin2, Hin1. split.
    + intros [[[Hloc | ->] | ->] | (o & Ho & Hs)].
      * left. exact Hloc.
      * right. exists order. split; [apply elem_of_cons; auto | auto].
      * right. exists order. split; [apply elem_of_cons; auto | auto].
      * right. exists o. split; [apply elem_of_cons; auto | exact Hs].
    + intros [Hloc | (o & Ho & Hs)]; [auto |].
      apply elem_of_cons in Ho as [-> | Ho].
      * destruct Hs as [<- | <-]; auto.
      * right. exists o. auto.
Qed.

(** X16. [_extract_locations] returns each location once; a location is in
    the list exactly when it is the start of a vehicle or the pickup or
    delivery place of an order; and the starts of the vehicles come first:
    with at least one vehicle the list begins with the first vehicle's
    start. *)
Theorem extract_locations_distinct_and_complete (orders : list Order.t)
  (vehicles : list Vehicle.t) :
  NoDup (RouteOptimizer._extract_locations orders vehicles)
  /\ (forall loc,
        loc ∈ RouteOptimizer._extract_locations orders vehicles
        <-> (exists vehicle, vehicle ∈ vehicles
               /\ Vehicle.start_location vehicle = loc)
            \/ (exists order, order ∈ orders
                  /\ (Order.pickup_location order = loc
                      \/ Order.delivery_location order = loc)))
  /\ (forall vehicle vehicles',
        vehicles = vehicle :: vehicles' ->
        head (RouteOptimizer._extract_locations orders vehicles)
        = Some (Vehicle.start_location vehicle)).
Proof.
  unfold RouteOptimizer._extract_locations.
  destruct (extract_vehicles_spec vehicles [] (NoDup_nil_2))
    as (Hnd1 & Hin1 & _).
  destruct (extract_orders_spec orders _ Hnd1) as (Hnd2 & Hin2 & Hpre2).
  split; [exact Hnd2 |]. split.
  - intros loc. rewrite Hin2, Hin1. split.
    + intros [[Hnil | Hv] | Ho]; [| auto | auto].
      apply elem_of_nil in Hnil. contradiction.
    + intros [Hv | Ho]; auto.
  - intros vehicle vehicles' ->.
    destruct Hpre2 as [rest ->]. cbn [foldl].
    destruct (extract_vehicles_spec vehicles'
                (RouteOptimizer.add_location []
                   (Vehicle.start_location vehicle))) as (_ & _ & [rest' ->]).
    { unfold RouteOptimizer.add_location. rewrite decide_False.
      - apply NoDup_singleton.
      - intros Hnil. apply elem_of_nil in Hnil. exact Hnil. }
    unfold RouteOptimizer.add_location at 1.
    rewrite decide_False
      by (intros Hnil; apply elem_of_nil in Hnil; exact Hnil).
    reflexivity.
Qed.

(** ** optimizer.py: what a built route records *)

(** X17. The 2-opt phase returns the list of routes it was given, with the
    stops of every route in the order they had: the comparison it makes
    never finds a candidate shorter. *)
Theorem improve_with_2opt_returns_input (fuel : nat) (routes : list Route.t)
  (distance_matrix : Matrix) (stops : list nat) (idxs : list nat) :
  RouteOptimizer._improve_with_2opt (S fuel) routes distance_matrix
  = Some routes
  /\ RouteOptimizer.scan_i stops idxs = None.
Proof.
  split; [apply improve_with_2opt_identity | apply scan_i_none].
Qed.

Lemma calculate_route_metrics_returned (self : RouteOptimizer.t)
  (order_indices : list nat) (orders : list Order.t) (vehicle : Vehicle.t)
  (distance_matrix : Matrix) (route : Route.t) :
  RouteOptimizer._calculate_route_metrics self order_indices orders vehicle
    distance_matrix = Some route ->
  Route.stops route = order_indices
  /\ Route.vehicle_id route = Vehicle.id vehicle
  /\ loads_agree orders route
  /\ 0 <= Route.total_distance route
  /\ Route.total_time_minutes route
     = Route.total_distance route / RouteOptimizer.average_speed_kmh self * 60
       + 45 * INR (length order_indices).
Proof.
  unfold RouteOptimizer._calculate_route_metrics.
  destruct (for_each _ _ order_indices) as [st|] eqn:E; [| discriminate].
  apply (for_each_returned _
           (fun done st =>
              RouteOptimizer.m_total_weight st
              = total_weight (route_loads orders done)
              /\ RouteOptimizer.m_total_volume st
                 = total_volume (route_loads orders done)
              /\ 0 <= RouteOptimizer.m_total_distance st
              /\ RouteOptimizer.m_total_time st
                 = RouteOptimizer.m_total_distance st
                   / RouteOptimizer.average_speed_kmh self * 60
                   + 45 * INR (length done))) in E.
  - destruct E as (Hw & Hv & Hd & Ht). cbn [mbind option_bind].
    assert (Hacc : loads_agree orders
                     {| Route.vehicle_id := Vehicle.id vehicle;
                        Route.stops := order_indices;
                        Route.total_distance := 0;
                        Route.total_time_minutes := 0;
                        Route.weight_used := RouteOptimizer.m_total_weight st;
                        Route.volume_used := RouteOptimizer.m_total_volume st
                     |}) by (split; assumption).
    destruct (Vehicle.end_location vehicle) as [end_location|];
      intros [= <-]; cbn [Route.stops Route.vehicle_id Route.total_distance
                            Route.total_time_minutes];
      (split; [reflexivity |]); (split; [reflexivity |]);
      (split; [exact Hacc |]).
    + pose proof (haversine_bounds
                    (RouteOptimizer.m_current_location st).1
                    (RouteOptimizer.m_current_location st).2
                    end_location.1 end_location.2) as [Hh _].
      fold (DistanceMatrix.distance_between
              (RouteOptimizer.m_current_location st) end_location) in Hh.
      split; [lra |]. rewrite Ht. unfold Rdiv. ring.
    + split; [exact Hd | exact Ht].
  - unfold total_weight, total_volume, route_loads, sum_R. simpl.
    repeat split; try lra; unfold Rdiv; ring.
  - intros done x st1 st2 (Hw & Hv & Hd & Ht).
    unfold RouteOptimizer.metrics_body.
    destruct (orders !! x) as [order|] eqn:Horder; [| discriminate].
    cbn [mbind option_bind]. intros [= <-].
    cbn [RouteOptimizer.m_total_weight RouteOptimizer.m_total_volume
           RouteOptimizer.m_total_distance RouteOptimizer.m_total_time].
    rewrite (route_loads_snoc orders done x order Horder).
    unfold total_weight, total_volume in *.
    destruct (sum_loads_snoc (route_loads orders done)
                (Order.weight_kg order) (Order.volume_m3 order)) as [-> ->].
    rewrite Hw, Hv, Ht, length_app, plus_INR. cbn [length INR].
    pose proof (haversine_bounds
                  (RouteOptimizer.m_current_location st1).1
                  (RouteOptimizer.m_current_location st1).2
                  (Order.pickup_location order).1
                  (Order.pickup_location order).2) as [Hh1 _].
    fold (DistanceMatrix.distance_between
            (RouteOptimizer.m_current_location st1)
            (Order.pickup_location order)) in Hh1.
    pose proof (haversine_bounds
                  (Order.pickup_location order).1
                  (Order.pickup_location order).2
                  (Order.delivery_location order).1
                  (Order.delivery_location order).2) as [Hh2 _].
    fold (DistanceMatrix.distance_between (Order.pickup_location order)
            (Order.delivery_location order)) in Hh2.
    repeat split; try lra; unfold Rdiv; ring.
Qed.



(** ** optimizer.py: the routes of the construction and salvage passes *)

(** The routes that the loop over the vehicles appends: each was built by
    [_calculate_route_metrics] for one of the vehicles, from at least one
    stop, and they come in the order of the vehicles. *)
Lemma vehicles_loop_returned (fuel : nat) (self : RouteOptimizer.t)
  (orders : list Order.t) (distance_matrix : Matrix)
  (vehicles : list Vehicle.t) :
  forall routes unassigned routes' unassigned',
    RouteOptimizer.vehicles_loop fuel self orders distance_matrix vehicles
      routes unassigned = Some (routes', unassigned') ->
    exists built : list (Vehicle.t * Route.t),
      routes' = routes ++ built.*2
      /\ sublist built.*1 vehicles
      /\ Forall (fun vr =>
                   exists order_indices,
                     RouteOptimizer._calculate_route_metrics self
                       order_indices orders vr.1 distance_matrix
                     = Some vr.2) built.
Proof.
  induction vehicles as [|vehicle vehicles IH];
    intros routes unassigned routes' unassigned'.
  { simpl. intros [= <- <-]. exists []. rewrite app_nil_r.
    split; [reflexivity |]. split; constructor. }
  cbn [RouteOptimizer.vehicles_loop].
  destruct unassigned as [|u0 us].
  { intros [= <- <-]. exists []. rewrite app_nil_r.
    split; [reflexivity |]. split; [apply sublist_nil_l | constructor]. }
  destruct (RouteOptimizer.assign_loop _ _ _ _) as [st|]; [| discriminate].
  cbn [mbind option_bind].
  destruct (RouteOptimizer.route_orders st) as [|r0 rs] eqn:Hro.
  - cbn [mbind option_bind]. intros E.
    apply IH in E as (built & -> & Hsub & Hall).
    exists built. split; [reflexivity |].
    split; [apply sublist_cons_r; left; exact Hsub | exact Hall].
  - destruct (RouteOptimizer._calculate_route_metrics _ _ _ _ _) as [route|]
      eqn:Eroute; [| discriminate].
    cbn [mbind option_bind]. intros E.
    apply IH in E as (built & -> & Hsub & Hall).
    exists ((vehicle, route) :: built). rewrite <- app_assoc.
    split; [reflexivity |].
    split; [cbn [fmap list_fmap fst]; apply sublist_skip; exact Hsub |].
    constructor; [| exact Hall]. exists (r0 :: rs). exact Eroute.
Qed.

(** What the salvage pass does to the routes for one order: nothing, or one
    route gets the order as its last stop and its loads are raised. *)
Lemma salvage_scan_returned (order_idx : nat) (order : Order.t)
  (vehicles : list Vehicle.t) :
  forall (i : nat) (routes routes' : list Route.t),
    RouteOptimizer.salvage_scan order_idx order i vehicles routes
    = Some routes' ->
    routes' = routes
    \/ exists k route,
         routes !! k = Some route
         /\ routes'
            = <[k := {| Route.vehicle_id := Route.vehicle_id route;
                        Route.stops := Route.stops route ++ [order_idx];
                        Route.total_distance := Route.total_distance route;
                        Route.total_time_minutes :=
                          Route.total_time_minutes route;
                        Route.weight_used :=
                          Route.weight_used route + Order.weight_kg order;
                        Route.volume_used :=
                          Route.volume_used route + Order.volume_m3 order
                     |}]> routes.
Proof.
  induction vehicles as [|vehicle vehicles IH]; intros i routes routes'.
  { simpl. intros [= <-]. left. reflexivity. }
  cbn [RouteOptimizer.salvage_scan].
  destruct (decide (i < length routes)%nat) as [Hi | Hi]; [| apply IH].
  destruct (routes !! i) as [route|] eqn:Hroute; [| discriminate].
  cbn [mbind option_bind].
  destruct (_ && _); [| apply IH].
  intros [= <-]. right. exists i, route. split; [exact Hroute | reflexivity].
Qed.

Lemma salvage_returned (orders : list Order.t) (vehicles : list Vehicle.t)
  (P : Route.t -> Prop) (unassigned : list nat)
  (routes routes' : list Route.t) :
  (forall route order_idx order,
      orders !! order_idx = Some order -> P route ->
      P {| Route.vehicle_id := Route.vehicle_id route;
           Route.stops := Route.stops route ++ [order_idx];
           Route.total_distance := Route.total_distance route;
           Route.total_time_minutes := Route.total_time_minutes route;
           Route.weight_used := Route.weight_used route + Order.weight_kg order;
           Route.volume_used :=
             Route.volume_used route + Order.volume_m3 order |}) ->
  for_each (RouteOptimizer.salvage_body orders vehicles) routes unassigned
  = Some routes' ->
  Forall P routes ->
  Forall P routes'
  /\ Route.vehicle_id <$> routes' = Route.vehicle_id <$> routes.
Proof.
  intros Hext E Hall.
  apply (for_each_returned _
           (fun _ rs =>
              Forall P rs
              /\ Route.vehicle_id <$> rs = Route.vehicle_id <$> routes))
    in E; [exact E | split; [exact Hall | reflexivity] |].
  intros done x rs1 rs2 [HP Hids]. unfold RouteOptimizer.salvage_body.
  destruct (orders !! x) as [order|] eqn:Horder; [| discriminate].
  cbn [mbind option_bind]. intros Escan.
  apply salvage_scan_returned in Escan as [-> | (k & route & Hk & ->)];
    [split; assumption |].
  split.
  - apply Forall_insert; [exact HP |]. apply (Hext route x order Horder).
    rewrite Forall_forall in HP. apply HP.
    apply list_elem_of_lookup. eauto.
  - rewrite list_fmap_insert. cbn [Route.vehicle_id].
    rewrite <- Hids. apply list_insert_id.
    rewrite list_lookup_fmap, Hk. reflexivity.
Qed.

Lemma loads_agree_snoc (orders : list Order.t) (route : Route.t)
  (order_idx : nat) (order : Order.t) :
  orders !! order_idx = Some order ->
  loads_agree orders route ->
  loads_agree orders
    {| Route.vehicle_id := Route.vehicle_id route;
       Route.stops := Route.stops route ++ [order_idx];
       Route.total_distance := Route.total_distance route;
       Route.total_time_minutes := Route.total_time_minutes route;
       Route.weight_used := Route.weight_used route + Order.weight_kg order;
       Route.volume_used := Route.volume_used route + Order.volume_m3 order |}.
Proof.
  intros Horder [Hw Hv]. unfold loads_agree, total_weight, total_volume in *.
  cbn [Route.stops Route.weight_used Route.volume_used].
  rewrite (route_loads_snoc orders _ order_idx order Horder).
  destruct (sum_loads_snoc (route_loads orders (Route.stops route))
              (Order.weight_kg order) (Order.volume_m3 order)) as [-> ->].
  rewrite Hw, Hv. split; reflexivity.
Qed.

(** The routes of [_nearest_neighbor_initial_solution]: their loads agree
    with their stops and their vehicles come in the order of the input. *)
Lemma nearest_neighbor_returned (fuel : nat) (self : RouteOptimizer.t)
  (orders : list Order.t) (vehicles : list Vehicle.t)
  (distance_matrix : Matrix) (routes : list Route.t) :
  RouteOptimizer._nearest_neighbor_initial_solution fuel self orders vehicles
    distance_matrix = Some routes ->
  Forall (loads_agree orders) routes
  /\ sublist (Route.vehicle_id <$> routes) (Vehicle.id <$> vehicles).
Proof.
  unfold RouteOptimizer._nearest_neighbor_initial_solution.
  destruct (RouteOptimizer.vehicles_loop _ _ _ _ _ _ _)
    as [[routes0 unassigned]|] eqn:Eloop; [| discriminate].
  cbn [mbind option_bind]. intros Esalvage.
  apply vehicles_loop_returned in Eloop as (built & -> & Hsub & Hbuilt).
  cbn [app] in Esalvage.
  assert (Hagree : Forall (loads_agree orders) built.*2).
  { apply Forall_fmap. eapply Forall_impl; [exact Hbuilt |].
    intros [vehicle route] [idxs Hcalc]. cbn [fst snd] in *.
    apply calculate_route_metrics_returned in Hcalc. cbn. tauto. }
  assert (Hids : Route.vehicle_id <$> built.*2 = Vehicle.id <$> built.*1).
  { clear Hsub Hagree Esalvage.
    induction Hbuilt as [|[v r] built [idxs Hc] _ IH]; [reflexivity |].
    cbn [fmap list_fmap fst snd] in *. f_equal; [| exact IH].
    apply calculate_route_metrics_returned in Hc. tauto. }
  apply (salvage_returned orders vehicles (loads_agree orders)) in Esalvage
    as [Hall Hsame]; [| intros; apply loads_agree_snoc; assumption
                       | exact Hagree].
  split; [exact Hall |]. rewrite Hsame, Hids.
  apply fmap_sublist. exact Hsub.
Qed.

(** X20. The vehicle ids of the returned routes are ids of input vehicles,
    in the order of the input and each position used at most once: there
    are no more routes than vehicles, and a vehicle that got no order has no
    route. *)
Theorem optimize_routes_follow_vehicles (fuel : nat)
  (self : RouteOptimizer.t) (orders : list Order.t)
  (vehicles : list Vehicle.t) (improve_with_2opt : bool) :
  (length orders < fuel)%nat ->
  exists routes self',
    RouteOptimizer.optimize fuel self orders vehicles improve_with_2opt
    = Some (routes, self')
    /\ sublist (Route.vehicle_id <$> routes) (Vehicle.id <$> vehicles)
    /\ (length routes <= length vehicles)%nat.
Proof.
  intros Hfuel.
  destruct (optimize_ok orders vehicles self fuel improve_with_2opt Hfuel)
    as (routes & self' & E & _ & _).
  exists routes, self'. split; [exact E |].
  assert (Hsub : sublist (Route.vehicle_id <$> routes)
                   (Vehicle.id <$> vehicles)).
  { destruct orders as [|order orders].
    - cbn in E. injection E as <- _. apply sublist_nil_l.
    - destruct fuel as [|fuel]; [lia |].
      apply optimize_routes in E as (m & Enn).
      apply nearest_neighbor_returned in Enn. tauto. }
  split; [exact Hsub |].
  apply sublist_length in Hsub. rewrite !length_fmap in Hsub. exact Hsub.
Qed.

Lemma optimize_routes_follow_vehicles_witness :
  exists routes self',
    RouteOptimizer.optimize 5 (RouteOptimizer.init false) bug_orders
      bug_vehicles true = Some (routes, self')
    /\ sublist (Route.vehicle_id <$> routes) (Vehicle.id <$> bug_vehicles)
    /\ (length routes <= length bug_vehicles)%nat.
Proof.
  apply (optimize_routes_follow_vehicles 5 (RouteOptimizer.init false)
           bug_orders bug_vehicles true).
  unfold bug_orders. cbn [length]. lia.
Defined.

(** ** optimizer.py: the choice of the next order *)

Lemma best_body_nearest (orders : list Order.t) (vehicle : Vehicle.t)
  (cw cv : R) (cl : Loc) (seen : list nat) (best best' : option nat * ExtFloat)
  (idx : nat) :
  nearest_of orders vehicle cw cv cl seen best ->
  RouteOptimizer.best_body orders vehicle cw cv cl best idx = Some best' ->
  nearest_of orders vehicle cw cv cl (seen ++ [idx]) best'.
Proof.
  intros Hbest. unfold RouteOptimizer.best_body.
  destruct (orders !! idx) as [order|] eqn:Horder; [| discriminate].
  cbn [mbind option_bind].
  assert (Hsame : forall o, orders !! idx = Some o -> o = order).
  { intros o Ho. rewrite Horder in Ho. injection Ho as <-. reflexivity. }
  destruct (bool_decide _ || bool_decide _) eqn:Hfit.
  - (* the order does not fit: [continue] *)
    intros [= <-].
    assert (Hno : ~ fits vehicle cw cv order).
    { intros [Hw Hv]. apply orb_true_iff in Hfit as [Hf | Hf];
        apply bool_decide_eq_true in Hf; lra. }
    unfold nearest_of in *. destruct (best.1) as [b|].
    + destruct Hbest as (bo & before & after & -> & Hb & Hbf & Hd & Hlt & Hle).
      exists bo, before, (after ++ [idx]). rewrite <- app_assoc.
      split; [reflexivity |]. repeat split; try assumption; try apply Hbf.
      intros j oj Hj Hoj Hfj. apply elem_of_app in Hj as [Hj | Hj].
      * apply (Hle j oj Hj Hoj Hfj).
      * apply list_elem_of_singleton in Hj as ->.
        apply Hsame in Hoj as ->. contradiction.
    + destruct Hbest as [Hinf Hnone]. split; [exact Hinf |].
      intros j oj Hj Hoj. apply elem_of_app in Hj as [Hj | Hj].
      * apply (Hnone j oj Hj Hoj).
      * apply list_elem_of_singleton in Hj as ->.
        apply Hsame in Hoj as ->. exact Hno.
  - (* the order fits *)
    apply orb_false_elim in Hfit as [Hw Hv].
    apply bool_decide_eq_false in Hw, Hv.
    assert (Hyes : fits vehicle cw cv order) by (split; lra).
    destruct best as [bi bd]. unfold nearest_of in *. cbn [fst snd] in *.
    destruct bi as [b|].
    + destruct Hbest as (bo & before & after & -> & Hb & Hbf & -> & Hlt & Hle).
      cbn [lt_ext]. case_bool_decide as Hcmp; intros [= <-]; cbn [fst snd].
      * (* strictly nearer: the new best *)
        exists order, (before ++ b :: after), [].
        split; [reflexivity |]. split; [exact Horder |].
        split; [exact Hyes |]. split; [reflexivity |]. split.
        -- intros j oj Hj Hoj Hfj.
           apply elem_of_app in Hj as [Hj | Hj].
           ++ pose proof (Hlt j oj Hj Hoj Hfj). lra.
           ++ apply elem_of_cons in Hj as [-> | Hj].
              ** rewrite Hb in Hoj. injection Hoj as <-. exact Hcmp.
              ** pose proof (Hle j oj Hj Hoj Hfj). lra.
        -- intros j oj Hj. apply elem_of_nil in Hj. contradiction.
      * (* not nearer: the best stays *)
        exists bo, before, (after ++ [idx]). rewrite <- app_assoc.
        split; [reflexivity |]. split; [exact Hb |].
        split; [exact Hbf |]. split; [reflexivity |].
        split; [exact Hlt |].
        intros j oj Hj Hoj Hfj. apply elem_of_app in Hj as [Hj | Hj].
        -- apply (Hle j oj Hj Hoj Hfj).
        -- apply list_elem_of_singleton in Hj as ->.
           apply Hsame in Hoj as ->. lra.
    + destruct Hbest as [-> Hnone]. cbn [lt_ext]. intros [= <-]. cbn [fst snd].
      exists order, seen, []. split; [reflexivity |].
      split; [exact Horder |]. split; [exact Hyes |].
      split; [reflexivity |]. split.
      * intros j oj Hj Hoj Hfj. exfalso. apply (Hnone j oj Hj Hoj Hfj).
      * intros j oj Hj. apply elem_of_nil in Hj. contradiction.
Qed.

Lemma best_loop_nearest (orders : list Order.t) (vehicle : Vehicle.t)
  (cw cv : R) (cl : Loc) (unassigned : list nat)
  (best : option nat * ExtFloat) :
  for_each (RouteOptimizer.best_body orders vehicle cw cv cl)
    (None, PosInf) unassigned = Some best ->
  nearest_of orders vehicle cw cv cl unassigned best.
Proof.
  apply (for_each_returned _ (nearest_of orders vehicle cw cv cl)).
  - split; [reflexivity |]. intros idx order Hin.
    apply elem_of_nil in Hin. contradiction.
  - intros done x s1 s2 Hs1 Hx. eapply best_body_nearest; eassumption.
Qed.

(** ** optimizer.py: orders that fit nowhere *)

Lemma salvage_no_routes (orders : list Order.t) (vehicles : list Vehicle.t)
  (unassigned : list nat) :
  Forall (fun idx => (idx < length orders)%nat) unassigned ->
  for_each (RouteOptimizer.salvage_body orders vehicles) [] unassigned
  = Some [].
Proof.
  assert (Hscan : forall order_idx order i,
             RouteOptimizer.salvage_scan order_idx order i vehicles []
             = Some []).
  { intros order_idx order. induction vehicles as [|v vs IH]; intros i;
      [reflexivity |].
    cbn [RouteOptimizer.salvage_scan length].
    rewrite decide_False by lia. apply IH. }
  induction 1 as [|idx unassigned Hidx _ IH]; [reflexivity |].
  cbn [for_each]. unfold RouteOptimizer.salvage_body at 1.
  destruct (lookup_lt_is_Some_2 orders idx Hidx) as [order ->].
  cbn [mbind option_bind]. rewrite Hscan. exact IH.
Qed.

Lemma vehicles_loop_nothing_fits (fuel : nat) (self : RouteOptimizer.t)
  (orders : list Order.t) (distance_matrix : Matrix)
  (vehicles : list Vehicle.t) (unassigned : list nat) :
  Forall (fun idx => (idx < length orders)%nat) unassigned ->
  (forall order vehicle,
      order ∈ orders -> vehicle ∈ vehicles ->
      Order.weight_kg order > Vehicle.max_weight_kg vehicle
      \/ Order.volume_m3 order > Vehicle.max_volume_m3 vehicle) ->
  RouteOptimizer.vehicles_loop (S fuel) self orders distance_matrix vehicles
    [] unassigned = Some ([], unassigned).
Proof.
  intros Hlt. induction vehicles as [|vehicle vehicles IH]; intros Hnofit;
    [reflexivity |].
  cbn [RouteOptimizer.vehicles_loop].
  destruct unassigned as [|u0 us] eqn:Hun; [reflexivity |].
  rewrite <- Hun in *.
  destruct (best_loop_ok orders vehicle 0.0 0.0
              (Vehicle.start_location vehicle) unassigned Hlt)
    as (best & Ebest & _).
  pose proof (best_loop_nearest _ _ _ _ _ _ _ Ebest) as Hnear.
  unfold nearest_of in Hnear.
  destruct best as [[b|] bd]; cbn [fst snd] in Hnear.
  { exfalso. destruct Hnear as (bo & _ & _ & _ & Hb & [Hw Hv] & _).
    destruct (Hnofit bo vehicle) as [H1 | H1]; try lra.
    - apply list_elem_of_lookup. eauto.
    - apply elem_of_cons. left. reflexivity. }
  rewrite Hun at 1. rewrite Hun in Ebest.
  rewrite (assign_loop_break fuel orders vehicle [] 0.0 0.0
             (Vehicle.start_location vehicle) u0 us bd Ebest).
  cbn [mbind option_bind RouteOptimizer.route_orders
         RouteOptimizer.unassigned].
  rewrite <- Hun. apply IH.
  intros order v Ho Hv. apply Hnofit; [exact Ho |].
  apply elem_of_cons. right. exact Hv.
Qed.

(** X22. When every order is too heavy or too large for every vehicle, in
    particular when there is no vehicle, [optimize] returns the empty list
    of routes: the orders are dropped and nothing is raised. *)
Theorem optimize_nothing_fits (fuel : nat) (self : RouteOptimizer.t)
  (orders : list Order.t) (vehicles : list Vehicle.t)
  (improve_with_2opt : bool) :
  (forall order vehicle,
      order ∈ orders -> vehicle ∈ vehicles ->
      Order.weight_kg order > Vehicle.max_weight_kg vehicle
      \/ Order.volume_m3 order > Vehicle.max_volume_m3 vehicle) ->
  exists self',
    RouteOptimizer.optimize (S fuel) self orders vehicles improve_with_2opt
    = Some ([], self').
Proof.
  intros Hnofit. unfold RouteOptimizer.optimize.
  destruct orders as [|order os] eqn:Ho; [eauto |].
  rewrite <- Ho in *.
  destruct (compute_distance_matrix_total
              (RouteOptimizer.distance_matrix self)
              (RouteOptimizer._extract_locations orders vehicles))
    as (m & dm & ->).
  cbn [mbind option_bind].
  unfold RouteOptimizer._nearest_neighbor_initial_solution.
  assert (Hlt : Forall (fun idx => (idx < length orders)%nat)
                  (range 0 (length orders))).
  { apply Forall_forall. intros idx Hin. unfold range in Hin.
    apply elem_of_seq in Hin. lia. }
  rewrite vehicles_loop_nothing_fits by assumption.
  cbn [mbind option_bind]. rewrite salvage_no_routes by exact Hlt.
  cbn [mbind option_bind].
  destruct improve_with_2opt; [| eauto].
  rewrite improve_with_2opt_identity. cbn [mbind option_bind]. eauto.
Qed.

Lemma optimize_nothing_fits_witness :
  exists self',
    RouteOptimizer.optimize 1 (RouteOptimizer.init false) bug_orders [] true
    = Some ([], self').
Proof.
  apply (optimize_nothing_fits 0 (RouteOptimizer.init false) bug_orders []
           true).
  intros order vehicle _ Hv. apply elem_of_nil in Hv. contradiction.
Defined.

(** ** optimizer.py: the cache *)

(** X25. With at least one order and an optimizer that caches, the cache
    holds a matrix under the list of extracted locations once [optimize]
    has returned, whether it was there before or was built by this call. *)
Theorem optimize_fills_cache (fuel : nat) (self : RouteOptimizer.t)
  (order : Order.t) (orders : list Order.t) (vehicles : list Vehicle.t)
  (improve_with_2opt : bool) :
  DistanceMatrix.use_cache (RouteOptimizer.distance_matrix self) = true ->
  (length (order :: orders) < fuel)%nat ->
  exists routes self' matrix,
    RouteOptimizer.optimize fuel self (order :: orders) vehicles
      improve_with_2opt = Some (routes, self')
    /\ dict_get (RouteOptimizer._extract_locations (order :: orders) vehicles)
         (DistanceMatrix._cache (RouteOptimizer.distance_matrix self'))
       = Some matrix.
Proof.
  intros Huse Hfuel.
  destruct (optimize_ok (order :: orders) vehicles self fuel
              improve_with_2opt Hfuel) as (routes & self' & E & _ & _).
  exists routes, self'. pose proof E as E0.
  unfold RouteOptimizer.optimize in E0.
  destruct (DistanceMatrix.compute_distance_matrix _ _) as [[m dm]|] eqn:Edm;
    [| discriminate].
  cbn [mbind option_bind] in E0.
  destruct (RouteOptimizer._nearest_neighbor_initial_solution _ _ _ _ _)
    as [routes0|]; [| discriminate].
  cbn [mbind option_bind] in E0.
  destruct (if improve_with_2opt then _ else _) as [routes1|];
    [| discriminate].
  cbn [mbind option_bind] in E0. injection E0 as _ <-.
  exists m. split; [exact E |].
  apply compute_distance_matrix_state in Edm as (_ & _ & Hhit & _).
  cbn [RouteOptimizer.distance_matrix]. apply (Hhit Huse).
Qed.

Lemma optimize_fills_cache_witness :
  exists routes self' matrix,
    RouteOptimizer.optimize 2 (RouteOptimizer.init true) [far_order]
      [roomy_vehicle] true = Some (routes, self')
    /\ dict_get (RouteOptimizer._extract_locations [far_order] [roomy_vehicle])
         (DistanceMatrix._cache (RouteOptimizer.distance_matrix self'))
       = Some matrix.
Proof.
  apply (optimize_fills_cache 2 (RouteOptimizer.init true) far_order []
           [roomy_vehicle] true).
  - reflexivity.
  - cbn [length]. lia.
Defined.

(** ** optimizer.py: what the salvage pass leaves alone *)

Lemma only_appended_refl (route : Route.t) : only_appended route route.
Proof. unfold only_appended. repeat split; reflexivity. Qed.

Lemma salvage_only_appends (orders : list Order.t)
  (vehicles : list Vehicle.t) (unassigned : list nat)
  (routes routes' : list Route.t) :
  for_each (RouteOptimizer.salvage_body orders vehicles) routes unassigned
  = Some routes' ->
  Forall2 only_appended routes routes'.
Proof.
  apply (for_each_returned _ (fun _ rs => Forall2 only_appended routes rs)).
  - apply Forall_Forall2_diag. apply Forall_forall. intros route _.
    apply only_appended_refl.
  - intros done x rs1 rs2 Hrs. unfold RouteOptimizer.salvage_body.
    destruct (orders !! x) as [order|]; [| discriminate].
    cbn [mbind option_bind]. intros Escan.
    apply salvage_scan_returned in Escan as [-> | (k & route & Hk & ->)];
      [exact Hrs |].
    destruct (Forall2_lookup_r _ _ _ _ _ Hrs Hk)
      as (route0 & Hk0 & (Hid & Hpre & Hd & Ht)).
    rewrite <- (list_insert_id routes k route0 Hk0).
    apply Forall2_insert; [exact Hrs |].
    unfold only_appended. cbn [Route.vehicle_id Route.stops
                                 Route.total_distance
                                 Route.total_time_minutes].
    split; [exact Hid |]. split; [| split; assumption].
    apply prefix_app_r. exact Hpre.
Qed.

(** X26. The salvage pass only appends stops.  The routes that
    [_nearest_neighbor_initial_solution] returns are the routes built by the
    loop over the vehicles, one for one and in that order, each with the
    same vehicle, with its stops as they were followed by the salvaged
    ones, and with the total distance and total time computed before the
    salvage pass. *)
Theorem salvage_pass_only_appends (fuel : nat) (self : RouteOptimizer.t)
  (orders : list Order.t) (vehicles : list Vehicle.t)
  (distance_matrix : Matrix) :
  (length orders < fuel)%nat ->
  exists built unassigned routes,
    RouteOptimizer.vehicles_loop fuel self orders distance_matrix vehicles []
      (range 0 (length orders)) = Some (built, unassigned)
    /\ RouteOptimizer._nearest_neighbor_initial_solution fuel self orders
         vehicles distance_matrix = Some routes
    /\ Forall2 only_appended built routes.
Proof.
  intros Hfuel.
  destruct (nearest_neighbor_ok orders vehicles self fuel distance_matrix
              Hfuel) as (routes & Enn & _).
  pose proof Enn as Esalvage.
  unfold RouteOptimizer._nearest_neighbor_initial_solution in Esalvage.
  destruct (RouteOptimizer.vehicles_loop _ _ _ _ _ _ _)
    as [[built unassigned]|]; [| discriminate].
  cbn [mbind option_bind] in Esalvage.
  exists built, unassigned, routes. split; [reflexivity |].
  split; [exact Enn |]. eapply salvage_only_appends. exact Esalvage.
Qed.

Lemma salvage_pass_only_appends_witness :
  exists built unassigned routes,
    RouteOptimizer.vehicles_loop 5 (RouteOptimizer.init false) bug_orders []
      bug_vehicles [] (range 0 (length bug_orders))
    = Some (built, unassigned)
    /\ RouteOptimizer._nearest_neighbor_initial_solution 5
         (RouteOptimizer.init false) bug_orders bug_vehicles []
       = Some routes
    /\ Forall2 only_appended built routes.
Proof.
  apply (salvage_pass_only_appends 5 (RouteOptimizer.init false) bug_orders
           bug_vehicles []).
  unfold bug_orders. cbn [length]. lia.
Defined.

(** ** optimizer.py: what the routes depend on *)

Lemma for_each_ext {A S : Type} (f g : S -> A -> option S) (l : list A) :
  (forall s x, f s x = g s x) ->
  forall s, for_each f s l = for_each g s l.
Proof.
  intros Hfg. induction l as [|x l IH]; intros s; [reflexivity |].
  simpl. rewrite Hfg. destruct (g s x); [apply IH | reflexivity].
Qed.

Lemma calculate_route_metrics_ignores_matrix (self self' : RouteOptimizer.t)
  (order_indices : list nat) (orders : list Order.t) (vehicle : Vehicle.t)
  (m m' : Matrix) :
  RouteOptimizer.average_speed_kmh self
  = RouteOptimizer.average_speed_kmh self' ->
  RouteOptimizer._calculate_route_metrics self order_indices orders vehicle m
  = RouteOptimizer._calculate_route_metrics self' order_indices orders
      vehicle m'.
Proof.
  intros Hspeed. unfold RouteOptimizer._calculate_route_metrics.
  rewrite (for_each_ext (RouteOptimizer.metrics_body self orders)
             (RouteOptimizer.metrics_body self' orders)).
  - rewrite Hspeed. reflexivity.
  - intros st x. unfold RouteOptimizer.metrics_body. rewrite Hspeed.
    reflexivity.
Qed.

Lemma vehicles_loop_ignores_matrix (fuel : nat)
  (self self' : RouteOptimizer.t) (orders : list Order.t) (m m' : Matrix)
  (vehicles : list Vehicle.t) :
  RouteOptimizer.average_speed_kmh self
  = RouteOptimizer.average_speed_kmh self' ->
  forall routes unassigned,
    RouteOptimizer.vehicles_loop fuel self orders m vehicles routes
      unassigned
    = RouteOptimizer.vehicles_loop fuel self' orders m' vehicles routes
        unassigned.
Proof.
  intros Hspeed. induction vehicles as [|vehicle vehicles IH];
    intros routes unassigned; [reflexivity |].
  cbn [RouteOptimizer.vehicles_loop].
  destruct unassigned as [|u0 us]; [reflexivity |].
  destruct (RouteOptimizer.assign_loop _ _ _ _) as [st|]; [| reflexivity].
  cbn [mbind option_bind].
  destruct (RouteOptimizer.route_orders st) as [|r0 rs].
  - cbn [mbind option_bind]. apply IH.
  - rewrite (calculate_route_metrics_ignores_matrix self self' _ _ _ m m'
               Hspeed).
    destruct (RouteOptimizer._calculate_route_metrics _ _ _ _ _);
      [| reflexivity].
    cbn [mbind option_bind]. apply IH.
Qed.

(** X27. The distance matrix that [optimize] builds is never consulted: the
    routes are the same whatever matrix is passed to the construction
    phase, and [optimize] returns the same routes for any two optimizers
    with the same average speed, whatever their caches hold. *)
Theorem optimize_routes_ignore_matrix (fuel : nat)
  (self self' : RouteOptimizer.t) (orders : list Order.t)
  (vehicles : list Vehicle.t) (improve_with_2opt : bool) (m m' : Matrix) :
  RouteOptimizer.average_speed_kmh self
  = RouteOptimizer.average_speed_kmh self' ->
  RouteOptimizer._nearest_neighbor_initial_solution fuel self orders
    vehicles m
  = RouteOptimizer._nearest_neighbor_initial_solution fuel self' orders
      vehicles m'
  /\ fst <$> RouteOptimizer.optimize fuel self orders vehicles
               improve_with_2opt
     = fst <$> RouteOptimizer.optimize fuel self' orders vehicles
                 improve_with_2opt.
Proof.
  intros Hspeed.
  assert (Hnn : forall s1 s2 m1 m2,
             RouteOptimizer.average_speed_kmh s1
             = RouteOptimizer.average_speed_kmh s2 ->
             RouteOptimizer._nearest_neighbor_initial_solution fuel s1 orders
               vehicles m1
             = RouteOptimizer._nearest_neighbor_initial_solution fuel s2
                 orders vehicles m2).
  { intros s1 s2 m1 m2 Hs.
    unfold RouteOptimizer._nearest_neighbor_initial_solution.
    rewrite (vehicles_loop_ignores_matrix fuel s1 s2 orders m1 m2 vehicles Hs).
    reflexivity. }
  split; [apply Hnn; exact Hspeed |].
  unfold RouteOptimizer.optimize.
  destruct orders as [|order os] eqn:Ho; [reflexivity |].
  rewrite <- Ho in *.
  destruct (compute_distance_matrix_total
              (RouteOptimizer.distance_matrix self)
              (RouteOptimizer._extract_locations orders vehicles))
    as (m1 & dm1 & ->).
  destruct (compute_distance_matrix_total
              (RouteOptimizer.distance_matrix self')
              (RouteOptimizer._extract_locations orders vehicles))
    as (m2 & dm2 & ->).
  cbn [mbind option_bind].
  rewrite (Hnn _ {| RouteOptimizer.distance_matrix := dm2;
                    RouteOptimizer.average_speed_kmh :=
                      RouteOptimizer.average_speed_kmh self' |} m1 m2)
    by exact Hspeed.
  destruct (RouteOptimizer._nearest_neighbor_initial_solution _ _ _ _ _)
    as [routes|]; [| reflexivity].
  cbn [mbind option_bind].
  destruct improve_with_2opt; [| reflexivity].
  unfold RouteOptimizer._improve_with_2opt.
  destruct (for_each _ _ routes); reflexivity.
Qed.

Lemma optimize_routes_ignore_matrix_witness :
  RouteOptimizer._nearest_neighbor_initial_solution 5
    (RouteOptimizer.init false) bug_orders bug_vehicles []
  = RouteOptimizer._nearest_neighbor_initial_solution 5
      (RouteOptimizer.init true) bug_orders bug_vehicles [[0]]
  /\ fst <$> RouteOptimizer.optimize 5 (RouteOptimizer.init false) bug_orders
               bug_vehicles true
     = fst <$> RouteOptimizer.optimize 5 (RouteOptimizer.init true)
                 bug_orders bug_vehicles true.
Proof.
  apply (optimize_routes_ignore_matrix 5 (RouteOptimizer.init false)
           (RouteOptimizer.init true) bug_orders bug_vehicles true []
           [[0]]).
  reflexivity.
Defined.

(** X28. [optimize] leaves the average speed and the [use_cache] flag of
    the optimizer as they are, and an optimizer without a cache is
    returned unchanged. *)
Theorem optimize_keeps_settings (fuel : nat) (self self' : RouteOptimizer.t)
  (orders : list Order.t) (vehicles : list Vehicle.t)
  (improve_with_2opt : bool) (routes : list Route.t) :
  RouteOptimizer.optimize fuel self orders vehicles improve_with_2opt
  = Some (routes, self') ->
  RouteOptimizer.average_speed_kmh self'
  = RouteOptimizer.average_speed_kmh self
  /\ DistanceMatrix.use_cache (RouteOptimizer.distance_matrix self')
     = DistanceMatrix.use_cache (RouteOptimizer.distance_matrix self)
  /\ (DistanceMatrix.use_cache (RouteOptimizer.distance_matrix self) = false
      -> self' = self).
Proof.
  unfold RouteOptimizer.optimize.
  destruct orders as [|order os].
  { intros [= <- <-]. auto. }
  destruct (DistanceMatrix.compute_distance_matrix _ _) as [[m dm]|] eqn:Edm;
    [| discriminate].
  cbn [mbind option_bind].
  destruct (RouteOptimizer._nearest_neighbor_initial_solution _ _ _ _ _)
    as [routes0|]; [| discriminate].
  cbn [mbind option_bind].
  destruct (if improve_with_2opt then _ else _) as [routes1|];
    [| discriminate].
  cbn [mbind option_bind]. intros [= <- <-].
  apply compute_distance_matrix_state in Edm as (Huse & Hsame & _).
  cbn [RouteOptimizer.average_speed_kmh RouteOptimizer.distance_matrix].
  split; [reflexivity |]. split; [exact Huse |].
  intros Hoff. rewrite (Hsame Hoff). destruct self. reflexivity.
Qed.

Lemma optimize_keeps_settings_witness :
  RouteOptimizer.average_speed_kmh (RouteOptimizer.init false)
  = RouteOptimizer.average_speed_kmh (RouteOptimizer.init false)
  /\ DistanceMatrix.use_cache
       (RouteOptimizer.distance_matrix (RouteOptimizer.init false))
     = DistanceMatrix.use_cache
         (RouteOptimizer.distance_matrix (RouteOptimizer.init false))
  /\ (DistanceMatrix.use_cache
        (RouteOptimizer.distance_matrix (RouteOptimizer.init false)) = false
      -> RouteOptimizer.init false = RouteOptimizer.init false).
Proof.
  apply (optimize_keeps_settings 0 (RouteOptimizer.init false)
           (RouteOptimizer.init false) [] [roomy_vehicle] true []).
  reflexivity.
Defined.
